(** * sreg: a driver for daisy-chained 74HC595 shift registers

    Shallow embedding of [src/sreg.cpp] and verification of its bit-level
    operations and of the sequence of pin writes it issues.

    The C++ type [int] is modelled as a [Z] inside the two's complement range
    of a platform-dependent width [int_bits] (16 on AVR boards, 32 on ARM and
    ESP boards).  Operations that C++ leaves undefined (a shift by a negative
    count or by at least the width, signed overflow) have no result.  Calls
    into the platform layer ([pinMode], [digitalWrite]) are recorded, in
    order, as a trace of events. *)

From Stdlib Require Import ZArith List Bool Lia.
Import ListNotations.
Local Open Scope Z_scope.

(** ** Platform calls *)

(** [OUTPUT] of [Arduino.h], the only mode the driver uses. *)
Inductive pin_mode : Type := OUTPUT.

(** One call into the platform layer, with its arguments. *)
Inductive io : Type :=
| PinMode (pin : Z) (mode : pin_mode)
| DigitalWrite (pin : Z) (val : Z).

Definition trace : Type := list io.

(** ** The file-scope variables of [sreg.cpp] *)

Record globals : Type := mkGlobals {
  ds_ : Z;          (* static uint8_t ds_ *)
  shcp_ : Z;        (* static uint8_t shcp_ *)
  stcp_ : Z;        (* static uint8_t stcp_ *)
  sreg_count_ : Z;  (* static int sreg_count_ *)
  shcp_reg_ : Z     (* static int shcp_reg_ = 0 *)
}.

(** The variables at program start: statics are zero-initialised. *)
Definition startup : globals := mkGlobals 0 0 0 0 0.

(** ** Computations: global state, a trace of platform calls, and
       undefined behaviour *)

(** A computation runs from a state of the globals.  It always yields the
    platform calls issued so far, and a result with the new globals unless
    it ran into undefined behaviour. *)
Definition M (A : Type) : Type := globals -> trace * option (A * globals).

Definition ret {A} (a : A) : M A := fun g => ([], Some (a, g)).

Definition bind {A B} (m : M A) (f : A -> M B) : M B :=
  fun g =>
    match m g with
    | (t1, None) => (t1, None)
    | (t1, Some (a, g1)) =>
        match f a g1 with
        | (t2, r) => (t1 ++ t2, r)
        end
    end.

Definition lift {A} (o : option A) : M A :=
  fun g => match o with Some a => ([], Some (a, g)) | None => ([], None) end.

Definition get : M globals := fun g => ([], Some (g, g)).
Definition put (g' : globals) : M unit := fun _ => ([], Some (tt, g')).
Definition emit (e : io) : M unit := fun g => ([e], Some (tt, g)).

Declare Scope sreg_scope.
Delimit Scope sreg_scope with sreg.
Notation "x <- m ;; k" := (bind m (fun x => k))
  (at level 100, m at next level, right associativity) : sreg_scope.
Notation "m ;; k" := (bind m (fun _ => k))
  (at level 100, right associativity) : sreg_scope.
Local Open Scope sreg_scope.

(** The platform primitives, as opaque calls; the level is recorded as the
    driver passes it, 0 or 1 at every call site. *)
Definition pinMode (pin : Z) (mode : pin_mode) : M unit := emit (PinMode pin mode).
Definition digitalWrite (pin : Z) (val : Z) : M unit := emit (DigitalWrite pin val).

(** Observations of an outcome. *)
Definition calls {A} (r : trace * option (A * globals)) : trace := fst r.
Definition outcome {A} (r : trace * option (A * globals)) : option (A * globals) := snd r.

(** The levels written to pin [p], in order. *)
Fixpoint writes_to (p : Z) (t : trace) : list Z :=
  match t with
  | [] => []
  | DigitalWrite q v :: t' => if q =? p then v :: writes_to p t' else writes_to p t'
  | PinMode _ _ :: t' => writes_to p t'
  end.

(** How many times pin [p] is driven high, resp. low ([digitalWrite] takes
    any nonzero level as HIGH). *)
Definition count_high (p : Z) (t : trace) : nat :=
  length (filter (fun v => negb (v =? 0)) (writes_to p t)).
Definition count_low (p : Z) (t : trace) : nat :=
  length (filter (fun v => v =? 0) (writes_to p t)).

(** C's [!x] and [!!x] on [int]. *)
Definition lnot_c (x : Z) : Z := if x =? 0 then 1 else 0.
Definition truth (x : Z) : Z := lnot_c (lnot_c x).

(** ** The register chain on the other end of the wires *)

(** Which pins the chain hangs on, and how many 8-bit chips it has. *)
Record wiring : Type := mkWiring {
  w_ds : Z; w_shcp : Z; w_stcp : Z; w_chips : Z
}.

(** Levels of the three lines, the internal shift stage and the parallel
    outputs, both as bitfields of [8 * w_chips] bits whose bit 0 is the bit
    shifted in last. *)
Record chain : Type := mkChain {
  ds_level : bool; shcp_level : bool; stcp_level : bool;
  shift_stage : Z; outputs : Z
}.

(** Modelled from the spec: the chips are hardware, no code of the
    repository describes them.  Glossary: the shift-clock is "the clock line
    whose rising edge loads one data bit into the register's internal shift
    stage", the latch-clock "the clock line whose rising edge copies the
    internal shift stage to the parallel output pins". *)
Definition chain_step (w : wiring) (h : chain) (e : io) : chain :=
  match e with
  | PinMode _ _ => h
  | DigitalWrite p v =>
      let lv := negb (v =? 0) in
      if p =? w_ds w then
        mkChain lv (shcp_level h) (stcp_level h) (shift_stage h) (outputs h)
      else if p =? w_shcp w then
        mkChain (ds_level h) lv (stcp_level h)
          (if negb (shcp_level h) && lv
           then (2 * shift_stage h + Z.b2z (ds_level h)) mod 2 ^ (8 * w_chips w)
           else shift_stage h)
          (outputs h)
      else if p =? w_stcp w then
        mkChain (ds_level h) (shcp_level h) lv (shift_stage h)
          (if negb (stcp_level h) && lv then shift_stage h else outputs h)
      else h
  end.

Definition chain_run (w : wiring) (h : chain) (t : trace) : chain :=
  fold_left (chain_step w) t h.

(** The three lines are separate pins. *)
Definition separate_pins (w : wiring) : Prop :=
  w_ds w <> w_shcp w /\ w_ds w <> w_stcp w /\ w_shcp w <> w_stcp w.

(** The chain the globals describe. *)
Definition wiring_of (g : globals) : wiring :=
  mkWiring (ds_ g) (shcp_ g) (stcp_ g) (sreg_count_ g).

(** The mirror agrees with the parallel outputs on every output bit. *)
Definition synced (g : globals) (h : chain) : Prop :=
  forall i, 0 <= i < 8 * sreg_count_ g ->
    Z.testbit (outputs h) i = Z.testbit (shcp_reg_ g) i.

Section Driver.

(** Width of [int] in bits; C++ guarantees at least 16. *)
Variable int_bits : Z.
Hypothesis int_bits_min : 16 <= int_bits.

(** ** [int] arithmetic *)

Definition int_min : Z := - 2 ^ (int_bits - 1).
Definition int_max : Z := 2 ^ (int_bits - 1) - 1.

Definition in_int (z : Z) : Prop := int_min <= z <= int_max.
Definition in_intb (z : Z) : bool := (int_min <=? z) && (z <=? int_max).

(** Conversion of an unsigned value of the width of [int] to [int]:
    reduction modulo [2 ^ int_bits] into the signed range. *)
Definition wrap (z : Z) : Z :=
  (z + 2 ^ (int_bits - 1)) mod 2 ^ int_bits - 2 ^ (int_bits - 1).

(** [a << n] on [int].  Undefined for a negative count, a count of at least
    the width, a negative [a], or when [a * 2^n] does not fit the unsigned
    type of the same width; otherwise that product converted to [int]
    (so [1 << (int_bits - 1)] is [int_min]). *)
Definition int_shl (a n : Z) : option Z :=
  if (0 <=? n) && (n <? int_bits) && (0 <=? a) && (a * 2 ^ n <? 2 ^ int_bits)
  then Some (wrap (a * 2 ^ n))
  else None.

(** [a - b] on [int]; signed overflow is undefined. *)
Definition int_sub (a b : Z) : option Z :=
  if in_intb (a - b) then Some (a - b) else None.

(** ** The driver *)

(** Reading one global, and assigning to one. *)
Definition read (f : globals -> Z) : M Z := g <- get ;; ret (f g).

Definition assign_ds (v : Z) : M unit :=
  g <- get ;; put (mkGlobals v (shcp_ g) (stcp_ g) (sreg_count_ g) (shcp_reg_ g)).
Definition assign_shcp (v : Z) : M unit :=
  g <- get ;; put (mkGlobals (ds_ g) v (stcp_ g) (sreg_count_ g) (shcp_reg_ g)).
Definition assign_stcp (v : Z) : M unit :=
  g <- get ;; put (mkGlobals (ds_ g) (shcp_ g) v (sreg_count_ g) (shcp_reg_ g)).
Definition assign_sreg_count (v : Z) : M unit :=
  g <- get ;; put (mkGlobals (ds_ g) (shcp_ g) (stcp_ g) v (shcp_reg_ g)).
Definition assign_shcp_reg (v : Z) : M unit :=
  g <- get ;; put (mkGlobals (ds_ g) (shcp_ g) (stcp_ g) (sreg_count_ g) v).

(** [int sreg_test_bit(int pin) { return !!(shcp_reg_ & 1 << pin); }] *)
Definition sreg_test_bit (pin : Z) : M Z :=
  reg <- read shcp_reg_ ;;
  m <- lift (int_shl 1 pin) ;;
  ret (truth (Z.land reg m)).

(** [int sreg_test_all_bits() { return shcp_reg_; }] *)
Definition sreg_test_all_bits : M Z :=
  read shcp_reg_.

(** [shcp_reg_ = (shcp_reg_ & ~(1 << pin)) | (!!bit_value << pin);] *)
Definition sreg_write_bit (pin bit_value : Z) : M unit :=
  reg <- read shcp_reg_ ;;
  m <- lift (int_shl 1 pin) ;;
  b <- lift (int_shl (truth bit_value) pin) ;;
  assign_shcp_reg (Z.lor (Z.land reg (Z.lnot m)) b).

(** [sreg_write_bit(pin, !sreg_test_bit(pin));] *)
Definition sreg_invert_bit (pin : Z) : M unit :=
  v <- sreg_test_bit pin ;;
  sreg_write_bit pin (lnot_c v).

(** [digitalWrite(stcp_, 0); digitalWrite(ds_, 0); digitalWrite(shcp_, 0);] *)
Definition sreg_latch_low : M unit :=
  stcp <- read stcp_ ;; digitalWrite stcp 0 ;;
  ds <- read ds_ ;; digitalWrite ds 0 ;;
  shcp <- read shcp_ ;; digitalWrite shcp 0.

(** The body of the [for] loop of [sreg_latch_high], at loop index [i]:
    [digitalWrite(shcp_, 0); digitalWrite(ds_, sreg_test_bit(i));
     digitalWrite(shcp_, 1); digitalWrite(ds_, 0);] *)
Definition shift_cycle (i : Z) : M unit :=
  shcp <- read shcp_ ;; digitalWrite shcp 0 ;;
  ds <- read ds_ ;; v <- sreg_test_bit i ;; digitalWrite ds v ;;
  shcp <- read shcp_ ;; digitalWrite shcp 1 ;;
  ds <- read ds_ ;; digitalWrite ds 0.

(** [for (i = n - 1; i >= 0; i--) body]: the [n] iterations at the indices
    [n-1], ..., [0], in this order. *)
Fixpoint shift_loop (n : nat) : M unit :=
  match n with
  | O => ret tt
  | S k => shift_cycle (Z.of_nat k) ;; shift_loop k
  end.

(** The loop entered at the value [i] of the loop variable: no iteration
    when [i < 0], else the iterations [i], [i-1], ..., [0]. *)
Definition shift_from (i : Z) : M unit := shift_loop (Z.to_nat (i + 1)).

(** [for (int i = (4 << sreg_count_) - 1; i >= 0; i--) { ... }
    digitalWrite(stcp_, 1);] *)
Definition sreg_latch_high : M unit :=
  count <- read sreg_count_ ;;
  width <- lift (int_shl 4 count) ;;
  start <- lift (int_sub width 1) ;;
  shift_from start ;;
  stcp <- read stcp_ ;; digitalWrite stcp 1.

(** [shcp_reg_ = bits; sreg_latch_low(); sreg_latch_high();] *)
Definition sreg_write_bits (bits : Z) : M unit :=
  assign_shcp_reg bits ;;
  sreg_latch_low ;;
  sreg_latch_high.

(** [ds_ = ds; shcp_ = shcp; stcp_ = stcp; sreg_count_ = sreg_count;
    pinMode(ds_, OUTPUT); pinMode(shcp_, OUTPUT); pinMode(stcp_, OUTPUT);
    sreg_write_bits(init_value);] *)
Definition sreg_init (ds shcp stcp init_value sreg_count : Z) : M unit :=
  assign_ds ds ;;
  assign_shcp shcp ;;
  assign_stcp stcp ;;
  assign_sreg_count sreg_count ;;
  p <- read ds_ ;; pinMode p OUTPUT ;;
  p <- read shcp_ ;; pinMode p OUTPUT ;;
  p <- read stcp_ ;; pinMode p OUTPUT ;;
  sreg_write_bits init_value.

(** ** The public interface, as a client drives it *)

Inductive call : Type :=
| Initialize (ds shcp stcp init_value sreg_count : Z)
| TestBit (pin : Z)
| TestAllBits
| WriteBit (pin bit_value : Z)
| InvertBit (pin : Z)
| WriteBits (bits : Z)
| LatchLow
| LatchHigh.

(** One call; the functions returning [int] yield their value. *)
Definition exec (c : call) : M (option Z) :=
  match c with
  | Initialize ds shcp stcp v n => sreg_init ds shcp stcp v n ;; ret None
  | TestBit pin => v <- sreg_test_bit pin ;; ret (Some v)
  | TestAllBits => v <- sreg_test_all_bits ;; ret (Some v)
  | WriteBit pin v => sreg_write_bit pin v ;; ret None
  | InvertBit pin => sreg_invert_bit pin ;; ret None
  | WriteBits bits => sreg_write_bits bits ;; ret None
  | LatchLow => sreg_latch_low ;; ret None
  | LatchHigh => sreg_latch_high ;; ret None
  end.

(** A sequence of calls, one after the other. *)
Fixpoint run (cs : list call) : M unit :=
  match cs with
  | [] => ret tt
  | c :: cs' => exec c ;; run cs'
  end.

(** The calls that touch the pins, and the two that only write memory. *)
Definition drives_pins (c : call) : bool :=
  match c with
  | Initialize _ _ _ _ _ | WriteBits _ | LatchLow | LatchHigh => true
  | _ => false
  end.

Definition memory_write (c : call) : bool :=
  match c with
  | WriteBit _ _ | InvertBit _ => true
  | _ => false
  end.

(** The calls that push unconditionally: latch low, shift, latch high. *)
Definition full_push (c : call) : bool :=
  match c with
  | Initialize _ _ _ _ _ | WriteBits _ => true
  | _ => false
  end.

(** ** Vocabulary of the properties *)

(** The logical value of bit [i] of [z] in two's complement. *)
Definition bit_of (z i : Z) : Z := if Z.testbit z i then 1 else 0.

(** Chain lengths whose shift width [4 << n] stays within the bits of an
    [int]. *)
Definition chain_ok (n : Z) : Prop := 0 <= n /\ Z.shiftl 4 n <= int_bits.

(** The bit indices [n-1], ..., [0]. *)
Fixpoint countdown (n : nat) : list Z :=
  match n with
  | O => []
  | S k => Z.of_nat k :: countdown k
  end.

(** The four writes that shift out bit [i] of the register. *)
Definition cycle_writes (g : globals) (i : Z) : trace :=
  [ DigitalWrite (shcp_ g) 0;
    DigitalWrite (ds_ g) (bit_of (shcp_reg_ g) i);
    DigitalWrite (shcp_ g) 1;
    DigitalWrite (ds_ g) 0 ].

(** The writes that shift out the bits [width-1], ..., [0]. *)
Definition shift_writes (g : globals) (width : Z) : trace :=
  flat_map (cycle_writes g) (countdown (Z.to_nat width)).

Definition latch_low_writes (g : globals) : trace :=
  [ DigitalWrite (stcp_ g) 0; DigitalWrite (ds_ g) 0; DigitalWrite (shcp_ g) 0 ].

Definition latch_high_writes (g : globals) : trace :=
  shift_writes g (Z.shiftl 4 (sreg_count_ g)) ++ [ DigitalWrite (stcp_ g) 1 ].

(** The first level driven onto the data pin by a trace. *)
Definition first_data (g : globals) (t : trace) : option Z :=
  hd_error (writes_to (ds_ g) t).

(** The arguments on which a call stays clear of undefined behaviour:
    values of type [int], bit indices within the width of [int], and a
    chain length whose shift width is within it. *)
Definition defined_call (c : call) (g : globals) : Prop :=
  match c with
  | Initialize _ _ _ v n => in_int v /\ chain_ok n
  | WriteBits v => in_int v /\ chain_ok (sreg_count_ g)
  | LatchHigh => chain_ok (sreg_count_ g)
  | TestBit pin | WriteBit pin _ | InvertBit pin => 0 <= pin < int_bits
  | TestAllBits | LatchLow => True
  end.

(** The chain a call talks to: the one it configures, or the one
    configured before. *)
Definition wiring_after (c : call) (g : globals) : wiring :=
  match c with
  | Initialize ds shcp stcp _ n => mkWiring ds shcp stcp n
  | _ => wiring_of g
  end.

(** The value of [1 << i] as a number: a power of two below the sign bit,
    [int_min] at the sign bit. *)
Definition bit_weight (i : Z) : Z :=
  if i <? int_bits - 1 then 2 ^ i else - 2 ^ (int_bits - 1).

(** The call that assigns the pins and the chain length, and the calls
    that assign the register. *)
Definition configures (c : call) : bool :=
  match c with
  | Initialize _ _ _ _ _ => true
  | _ => false
  end.

Definition writes_register (c : call) : bool :=
  match c with
  | Initialize _ _ _ _ _ | WriteBit _ _ | InvertBit _ | WriteBits _ => true
  | _ => false
  end.

(** The [int] arguments of a call are values of type [int]. *)
Definition typed_call (c : call) : Prop :=
  match c with
  | Initialize _ _ _ v n => in_int v /\ in_int n
  | WriteBits v => in_int v
  | _ => True
  end.

(** A platform call that addresses one of the three pins of [w], with
    level 0 or 1 when it is a write. *)
Definition on_wiring (w : wiring) (e : io) : Prop :=
  match e with
  | PinMode p _ => p = w_ds w \/ p = w_shcp w \/ p = w_stcp w
  | DigitalWrite p v =>
      (p = w_ds w \/ p = w_shcp w \/ p = w_stcp w) /\ (v = 0 \/ v = 1)
  end.

(** The value of [1 << i], and the register after bit [i] was overwritten
    with the truth value of [v]. *)
Definition bit_mask (i : Z) : Z := wrap (2 ^ i).

Definition written (reg i v : Z) : Z :=
  Z.lor (Z.land reg (Z.lnot (bit_mask i))) (if v =? 0 then 0 else bit_mask i).

(** The globals with the register replaced. *)
Definition set_reg (g : globals) (reg : Z) : globals :=
  mkGlobals (ds_ g) (shcp_ g) (stcp_ g) (sreg_count_ g) reg.

(** ** Two's complement facts *)

Lemma half_pos : 0 < 2 ^ (int_bits - 1).
Proof. apply Z.pow_pos_nonneg; lia. Qed.

Lemma full_double : 2 ^ int_bits = 2 * 2 ^ (int_bits - 1).
Proof.
  replace int_bits with (1 + (int_bits - 1)) at 1 by lia.
  rewrite Z.pow_add_r by lia. reflexivity.
Qed.

Lemma width_below_half : int_bits < 2 ^ (int_bits - 1).
Proof.
  assert (H : forall k, 0 <= k -> k + 4 < 2 ^ (k + 3)).
  { apply natlike_ind; [reflexivity|].
    intros k Hk IH. replace (Z.succ k + 3) with (1 + (k + 3)) by lia.
    rewrite Z.pow_add_r by lia. lia. }
  specialize (H (int_bits - 4) ltac:(lia)).
  replace (int_bits - 4 + 4) with int_bits in H by lia.
  replace (int_bits - 4 + 3) with (int_bits - 1) in H by lia. exact H.
Qed.

Lemma wrap_in_int z : in_int z -> wrap z = z.
Proof.
  unfold in_int, int_min, int_max, wrap. intros H.
  pose proof half_pos. pose proof full_double.
  rewrite Z.mod_small by lia. lia.
Qed.

Lemma wrap_half : wrap (2 ^ (int_bits - 1)) = int_min.
Proof.
  unfold wrap, int_min. pose proof half_pos. pose proof full_double.
  replace (2 ^ (int_bits - 1) + 2 ^ (int_bits - 1)) with (2 ^ int_bits) by lia.
  rewrite Z.mod_same by lia. lia.
Qed.

Lemma in_intb_spec z : in_intb z = true <-> in_int z.
Proof. unfold in_intb, in_int. rewrite andb_true_iff. lia. Qed.

(** Bits of [int_min]: the sign bit and everything above it. *)
Lemma int_min_bits k : 0 <= k -> Z.testbit int_min k = (int_bits - 1 <=? k).
Proof.
  intros Hk. unfold int_min.
  replace (- 2 ^ (int_bits - 1)) with (Z.lnot (Z.ones (int_bits - 1))).
  - rewrite Z.lnot_spec by lia. rewrite Z.testbit_ones_nonneg by lia.
    destruct (Z.ltb_spec k (int_bits - 1)), (Z.leb_spec (int_bits - 1) k);
      try reflexivity; lia.
  - unfold Z.lnot. rewrite Z.ones_equiv. lia.
Qed.

(** In a value of type [int] the bits from the sign bit upwards agree. *)
Lemma in_int_high_bits z k :
  in_int z -> int_bits - 1 <= k -> Z.testbit z k = (z <? 0).
Proof.
  unfold in_int, int_min, int_max. intros Hz Hk.
  assert (Hmono : 2 ^ (int_bits - 1) <= 2 ^ k) by (apply Z.pow_le_mono_r; lia).
  destruct (Z.ltb_spec z 0) as [Hneg|Hpos].
  - replace z with (Z.lnot (- z - 1)) by (unfold Z.lnot; lia).
    rewrite Z.lnot_spec by lia.
    assert (Hb : Z.testbit (- z - 1) k = false).
    { apply Z.testbit_false; [lia|]. rewrite Z.div_small by lia. reflexivity. }
    rewrite Hb. reflexivity.
  - apply Z.testbit_false; [lia|].
    rewrite Z.div_small by lia. reflexivity.
Qed.

Lemma high_bits_in_int z :
  (forall k, int_bits - 1 <= k -> Z.testbit z k = Z.testbit z (int_bits - 1)) ->
  in_int z.
Proof.
  intros H.
  assert (Hnonneg : forall y,
    (forall k, int_bits - 1 <= k -> Z.testbit y k = false) ->
    0 <= y < 2 ^ (int_bits - 1)).
  { intros y Hy.
    assert (y = y mod 2 ^ (int_bits - 1)).
    { apply Z.bits_inj'. intros k Hk.
      destruct (Z.lt_ge_cases k (int_bits - 1)).
      - rewrite Z.mod_pow2_bits_low by lia. reflexivity.
      - rewrite Z.mod_pow2_bits_high by lia. apply Hy; lia. }
    pose proof (Z.mod_pos_bound y (2 ^ (int_bits - 1)) half_pos). lia. }
  unfold in_int, int_min, int_max.
  destruct (Z.testbit z (int_bits - 1)) eqn:Hs.
  - assert (0 <= Z.lnot z < 2 ^ (int_bits - 1)).
    { apply Hnonneg. intros k Hk. rewrite Z.lnot_spec by lia.
      rewrite H by lia. reflexivity. }
    unfold Z.lnot in *. lia.
  - assert (0 <= z < 2 ^ (int_bits - 1)) by (apply Hnonneg; exact H). lia.
Qed.

(** ** The shifts of the driver *)

Lemma shl_one i : 0 <= i < int_bits -> int_shl 1 i = Some (bit_mask i).
Proof.
  intros Hi. unfold int_shl, bit_mask.
  assert (2 ^ i < 2 ^ int_bits) by (apply Z.pow_lt_mono_r; lia).
  rewrite Z.mul_1_l.
  destruct (Z.leb_spec 0 i), (Z.ltb_spec i int_bits),
    (Z.ltb_spec (2 ^ i) (2 ^ int_bits)); try lia.
  reflexivity.
Qed.

Lemma shl_truth v i :
  0 <= i < int_bits ->
  int_shl (truth v) i = Some (if v =? 0 then 0 else bit_mask i).
Proof.
  intros Hi. unfold truth, lnot_c.
  destruct (Z.eqb_spec v 0); cbn [Z.eqb].
  - unfold int_shl. pose proof half_pos. pose proof full_double.
    rewrite Z.mul_0_l.
    destruct (Z.leb_spec 0 i), (Z.ltb_spec i int_bits),
      (Z.ltb_spec 0 (2 ^ int_bits)); try lia.
    cbn [andb Z.leb Z.compare]. rewrite wrap_in_int; [reflexivity|].
    unfold in_int, int_min, int_max. lia.
  - apply shl_one; exact Hi.
Qed.

(** [1 << i] has bit [i] alone below the sign bit; [1 << (int_bits - 1)]
    is [int_min]. *)
Lemma bit_mask_bits i k :
  0 <= i < int_bits -> 0 <= k ->
  Z.testbit (bit_mask i) k =
  if i <? int_bits - 1 then i =? k else int_bits - 1 <=? k.
Proof.
  intros Hi Hk. unfold bit_mask.
  destruct (Z.ltb_spec i (int_bits - 1)) as [Hlow|Hsign].
  - rewrite wrap_in_int.
    + apply Z.pow2_bits_eqb; lia.
    + unfold in_int, int_min, int_max.
      assert (2 ^ i < 2 ^ (int_bits - 1)) by (apply Z.pow_lt_mono_r; lia).
      assert (0 < 2 ^ i) by (apply Z.pow_pos_nonneg; lia). lia.
  - replace i with (int_bits - 1) by lia.
    rewrite wrap_half. apply int_min_bits; exact Hk.
Qed.

Lemma bit_mask_self i : 0 <= i < int_bits -> Z.testbit (bit_mask i) i = true.
Proof.
  intros Hi. rewrite bit_mask_bits by lia.
  destruct (Z.ltb_spec i (int_bits - 1)).
  - apply Z.eqb_refl.
  - apply Z.leb_le; lia.
Qed.

Lemma bit_mask_other i k :
  0 <= i < int_bits -> 0 <= k < int_bits -> k <> i ->
  Z.testbit (bit_mask i) k = false.
Proof.
  intros Hi Hk Hne. rewrite bit_mask_bits by lia.
  destruct (Z.ltb_spec i (int_bits - 1)).
  - apply Z.eqb_neq; lia.
  - apply Z.leb_gt; lia.
Qed.

(** [!!(reg & 1 << i)] is the logical value of bit [i]. *)
Lemma truth_land_mask reg i :
  in_int reg -> 0 <= i < int_bits ->
  truth (Z.land reg (bit_mask i)) = bit_of reg i.
Proof.
  intros Hreg Hi. unfold truth, lnot_c, bit_of.
  destruct (Z.testbit reg i) eqn:Hb.
  - assert (Hne : Z.land reg (bit_mask i) <> 0).
    { intros H0.
      assert (Ht : Z.testbit (Z.land reg (bit_mask i)) i = true)
        by (rewrite Z.land_spec, Hb, bit_mask_self by lia; reflexivity).
      rewrite H0, Z.bits_0 in Ht. discriminate. }
    destruct (Z.eqb_spec (Z.land reg (bit_mask i)) 0); [contradiction|reflexivity].
  - assert (H0 : Z.land reg (bit_mask i) = 0).
    { apply Z.bits_inj'. intros k Hk.
      rewrite Z.land_spec, Z.bits_0, bit_mask_bits by lia.
      destruct (Z.ltb_spec i (int_bits - 1)).
      - destruct (Z.eqb_spec i k); [subst k; rewrite Hb; reflexivity|].
        apply andb_false_r.
      - destruct (Z.leb_spec (int_bits - 1) k); [|apply andb_false_r].
        rewrite in_int_high_bits by (assumption || lia).
        rewrite <- (in_int_high_bits reg i) by (assumption || lia).
        rewrite Hb. reflexivity. }
    rewrite H0. reflexivity.
Qed.

(** Bits of the register after [sreg_write_bit]. *)
Lemma written_bits reg i v k :
  0 <= i < int_bits -> 0 <= k ->
  Z.testbit (written reg i v) k =
  if Z.testbit (bit_mask i) k then negb (v =? 0) else Z.testbit reg k.
Proof.
  intros Hi Hk. unfold written.
  rewrite Z.lor_spec, Z.land_spec, Z.lnot_spec by lia.
  destruct (Z.testbit (bit_mask i) k) eqn:Hm, (v =? 0);
    cbn [negb]; rewrite ?Z.bits_0, ?Hm, ?andb_false_r, ?andb_true_r, ?orb_false_r, ?orb_true_r;
    reflexivity.
Qed.

Lemma written_in_int reg i v :
  in_int reg -> 0 <= i < int_bits -> in_int (written reg i v).
Proof.
  intros Hreg Hi. apply high_bits_in_int. intros k Hk.
  rewrite !written_bits by lia. rewrite !bit_mask_bits by lia.
  destruct (Z.ltb_spec i (int_bits - 1)).
  - destruct (Z.eqb_spec i k), (Z.eqb_spec i (int_bits - 1)); try lia.
    rewrite !in_int_high_bits by (assumption || lia). reflexivity.
  - destruct (Z.leb_spec (int_bits - 1) k), (Z.leb_spec (int_bits - 1) (int_bits - 1));
      try lia; reflexivity.
Qed.

Lemma written_same reg i v :
  0 <= i < int_bits -> bit_of (written reg i v) i = if v =? 0 then 0 else 1.
Proof.
  intros Hi. unfold bit_of. rewrite written_bits, bit_mask_self by lia.
  destruct (v =? 0); reflexivity.
Qed.

Lemma written_other reg i v j :
  0 <= i < int_bits -> 0 <= j < int_bits -> j <> i ->
  bit_of (written reg i v) j = bit_of reg j.
Proof.
  intros Hi Hj Hne. unfold bit_of.
  rewrite written_bits, bit_mask_other by lia. reflexivity.
Qed.

(** ** What each function does on defined inputs *)

Lemma bind_ret_run {A B} (m : M A) (f : A -> B) g t a g' :
  m g = (t, Some (a, g')) ->
  (x <- m ;; ret (f x)) g = (t, Some (f a, g')).
Proof. intros Hm. unfold bind, ret. rewrite Hm, app_nil_r. reflexivity. Qed.

Lemma test_bit_run g pin :
  in_int (shcp_reg_ g) -> 0 <= pin < int_bits ->
  sreg_test_bit pin g = ([], Some (bit_of (shcp_reg_ g) pin, g)).
Proof.
  intros Hreg Hpin. unfold sreg_test_bit, read, bind, get, ret, lift.
  rewrite shl_one by exact Hpin. cbn [app].
  rewrite truth_land_mask by assumption. reflexivity.
Qed.

Lemma test_bit_undefined g pin :
  ~ 0 <= pin < int_bits -> sreg_test_bit pin g = ([], None).
Proof.
  intros Hpin. unfold sreg_test_bit, read, bind, get, ret, lift, int_shl.
  destruct (Z.leb_spec 0 pin), (Z.ltb_spec pin int_bits); try lia; reflexivity.
Qed.

Lemma test_all_bits_run g :
  sreg_test_all_bits g = ([], Some (shcp_reg_ g, g)).
Proof. reflexivity. Qed.

Lemma write_bit_run g pin v :
  0 <= pin < int_bits ->
  sreg_write_bit pin v g = ([], Some (tt, set_reg g (written (shcp_reg_ g) pin v))).
Proof.
  intros Hpin.
  unfold sreg_write_bit, assign_shcp_reg, read, bind, get, put, ret, lift.
  rewrite shl_one, shl_truth by exact Hpin. reflexivity.
Qed.

Lemma write_bit_undefined g pin v :
  ~ 0 <= pin < int_bits -> sreg_write_bit pin v g = ([], None).
Proof.
  intros Hpin. unfold sreg_write_bit, read, bind, get, ret, lift, int_shl.
  destruct (Z.leb_spec 0 pin), (Z.ltb_spec pin int_bits); try lia; reflexivity.
Qed.

Lemma invert_bit_run g pin :
  in_int (shcp_reg_ g) -> 0 <= pin < int_bits ->
  sreg_invert_bit pin g =
  ([], Some (tt, set_reg g (written (shcp_reg_ g) pin
                              (lnot_c (bit_of (shcp_reg_ g) pin))))).
Proof.
  intros Hreg Hpin. unfold sreg_invert_bit, bind.
  rewrite test_bit_run, write_bit_run by assumption. reflexivity.
Qed.

Lemma invert_bit_undefined g pin :
  ~ 0 <= pin < int_bits -> sreg_invert_bit pin g = ([], None).
Proof.
  intros Hpin. unfold sreg_invert_bit, bind.
  rewrite test_bit_undefined by exact Hpin. reflexivity.
Qed.

Lemma latch_low_run g :
  sreg_latch_low g = (latch_low_writes g, Some (tt, g)).
Proof. reflexivity. Qed.

Lemma shift_cycle_run g i :
  in_int (shcp_reg_ g) -> 0 <= i < int_bits ->
  shift_cycle i g = (cycle_writes g i, Some (tt, g)).
Proof.
  intros Hreg Hi. unfold shift_cycle, read, bind, get, ret, digitalWrite, emit.
  rewrite test_bit_run by assumption. reflexivity.
Qed.

Lemma shift_loop_run g n :
  in_int (shcp_reg_ g) -> Z.of_nat n <= int_bits ->
  shift_loop n g = (flat_map (cycle_writes g) (countdown n), Some (tt, g)).
Proof.
  intros Hreg. induction n as [|k IH]; intros Hn; [reflexivity|].
  cbn [shift_loop countdown flat_map]. unfold bind.
  rewrite shift_cycle_run by (assumption || lia).
  rewrite IH by lia. reflexivity.
Qed.

(** The loop as the source writes it: test [i >= 0], run the body, decrement. *)
Lemma shift_from_unfold i :
  shift_from i = if 0 <=? i then (shift_cycle i ;; shift_from (i - 1)) else ret tt.
Proof.
  unfold shift_from. destruct (Z.leb_spec 0 i) as [Hi|Hi].
  - replace (Z.to_nat (i + 1)) with (S (Z.to_nat (i - 1 + 1))) by lia.
    cbn [shift_loop]. replace (Z.of_nat (Z.to_nat (i - 1 + 1))) with i by lia.
    reflexivity.
  - replace (Z.to_nat (i + 1)) with O by lia. reflexivity.
Qed.

Lemma chain_ok_width n :
  chain_ok n -> 0 <= n < int_bits /\ 4 <= Z.shiftl 4 n <= int_bits /\
                Z.shiftl 4 n = 4 * 2 ^ n.
Proof.
  unfold chain_ok. intros [Hn Hw]. rewrite Z.shiftl_mul_pow2 in * by lia.
  assert (n < 2 ^ n) by (apply Z.pow_gt_lin_r; lia).
  assert (0 < 2 ^ n) by (apply Z.pow_pos_nonneg; lia). lia.
Qed.

Lemma shl_four n : chain_ok n -> int_shl 4 n = Some (Z.shiftl 4 n).
Proof.
  intros Hok. destruct (chain_ok_width n Hok) as (Hn & Hw & Heq).
  pose proof width_below_half. pose proof full_double.
  unfold int_shl. rewrite <- Heq.
  destruct (Z.leb_spec 0 n), (Z.ltb_spec n int_bits),
    (Z.ltb_spec (Z.shiftl 4 n) (2 ^ int_bits)); try lia.
  cbn [andb Z.leb Z.compare]. rewrite wrap_in_int; [reflexivity|].
  unfold in_int, int_min, int_max. lia.
Qed.

Lemma sub_one_width n :
  chain_ok n -> int_sub (Z.shiftl 4 n) 1 = Some (Z.shiftl 4 n - 1).
Proof.
  intros Hok. destruct (chain_ok_width n Hok) as (Hn & Hw & Heq).
  pose proof width_below_half.
  unfold int_sub. replace (in_intb (Z.shiftl 4 n - 1)) with true; [reflexivity|].
  symmetry. apply in_intb_spec. unfold in_int, int_min, int_max. lia.
Qed.

Lemma latch_high_run g :
  in_int (shcp_reg_ g) -> chain_ok (sreg_count_ g) ->
  sreg_latch_high g = (latch_high_writes g, Some (tt, g)).
Proof.
  intros Hreg Hok. destruct (chain_ok_width _ Hok) as (Hn & Hw & Heq).
  unfold sreg_latch_high, read, bind, get, ret, lift.
  rewrite shl_four, sub_one_width by exact Hok. cbn [app].
  unfold shift_from. rewrite shift_loop_run by (assumption || lia).
  unfold latch_high_writes, shift_writes.
  replace (Z.shiftl 4 (sreg_count_ g) - 1 + 1) with (Z.shiftl 4 (sreg_count_ g)) by lia.
  reflexivity.
Qed.

Lemma write_bits_run g bits :
  in_int bits -> chain_ok (sreg_count_ g) ->
  sreg_write_bits bits g =
  (latch_low_writes (set_reg g bits) ++ latch_high_writes (set_reg g bits),
   Some (tt, set_reg g bits)).
Proof.
  intros Hbits Hok. unfold sreg_write_bits, assign_shcp_reg, bind, get, put.
  fold (set_reg g bits). rewrite latch_low_run.
  rewrite latch_high_run by assumption. reflexivity.
Qed.

Lemma init_run g ds shcp stcp v n :
  in_int v -> chain_ok n ->
  sreg_init ds shcp stcp v n g =
  ([PinMode ds OUTPUT; PinMode shcp OUTPUT; PinMode stcp OUTPUT]
     ++ latch_low_writes (mkGlobals ds shcp stcp n v)
     ++ latch_high_writes (mkGlobals ds shcp stcp n v),
   Some (tt, mkGlobals ds shcp stcp n v)).
Proof.
  intros Hv Hok.
  unfold sreg_init, assign_ds, assign_shcp, assign_stcp, assign_sreg_count,
    read, pinMode, emit, bind, get, put, ret.
  cbn [ds_ shcp_ stcp_ sreg_count_ shcp_reg_].
  rewrite write_bits_run by assumption. reflexivity.
Qed.

(** The functions that only look at or change the register issue no
    platform call, whatever their arguments. *)
Lemma test_bit_calls g pin : calls (sreg_test_bit pin g) = [].
Proof.
  unfold sreg_test_bit, read, bind, get, ret, lift.
  destruct (int_shl 1 pin); reflexivity.
Qed.

Lemma write_bit_calls g pin v : calls (sreg_write_bit pin v g) = [].
Proof.
  unfold sreg_write_bit, assign_shcp_reg, read, bind, get, put, ret, lift.
  destruct (int_shl 1 pin); [|reflexivity].
  destruct (int_shl (truth v) pin); reflexivity.
Qed.

Lemma invert_bit_calls g pin : calls (sreg_invert_bit pin g) = [].
Proof.
  unfold sreg_invert_bit, bind.
  pose proof (test_bit_calls g pin) as Ht.
  destruct (sreg_test_bit pin g) as [t [[v g1]|]]; cbn in Ht; subst t.
  - pose proof (write_bit_calls g1 pin (lnot_c v)) as Hw.
    destruct (sreg_write_bit pin (lnot_c v) g1) as [t2 r]. exact Hw.
  - reflexivity.
Qed.

(** ** Bookkeeping on traces *)

Lemma writes_to_app p t1 t2 :
  writes_to p (t1 ++ t2) = writes_to p t1 ++ writes_to p t2.
Proof.
  induction t1 as [|[q m|q v] t1 IH]; cbn [app writes_to]; [reflexivity|exact IH|].
  destruct (q =? p); [cbn [app]; f_equal|]; exact IH.
Qed.

Lemma writes_to_cycle_other g i p :
  p <> ds_ g -> p <> shcp_ g -> writes_to p (cycle_writes g i) = [].
Proof.
  intros Hd Hc. unfold cycle_writes. cbn [writes_to].
  destruct (Z.eqb_spec (shcp_ g) p), (Z.eqb_spec (ds_ g) p); congruence.
Qed.

Lemma writes_to_shift_other g p l :
  p <> ds_ g -> p <> shcp_ g -> writes_to p (flat_map (cycle_writes g) l) = [].
Proof.
  intros Hd Hc. induction l as [|i l IH]; [reflexivity|].
  cbn [flat_map]. rewrite writes_to_app, writes_to_cycle_other, IH by assumption.
  reflexivity.
Qed.

Lemma countdown_length n : length (countdown n) = n.
Proof. induction n; cbn [countdown length]; congruence. Qed.

(** [countdown n] lists [n-1] first and [0] last. *)
Lemma countdown_nth n k :
  (k < n)%nat -> nth_error (countdown n) k = Some (Z.of_nat (n - 1 - k)).
Proof.
  revert k. induction n as [|n IH]; intros k Hk; [lia|].
  destruct k as [|k]; cbn [countdown nth_error].
  - f_equal. lia.
  - rewrite IH by lia. f_equal. lia.
Qed.

Lemma countdown_last n : countdown (S n) = map Z.succ (countdown n) ++ [0].
Proof.
  induction n as [|n IH]; [reflexivity|].
  change (countdown (S (S n))) with (Z.of_nat (S n) :: countdown (S n)).
  rewrite IH at 1. cbn [countdown map app]. f_equal. lia.
Qed.

Lemma shift_writes_length g width :
  0 <= width -> Z.of_nat (length (shift_writes g width)) = 4 * width.
Proof.
  intros Hw. unfold shift_writes.
  replace width with (Z.of_nat (Z.to_nat width)) at 2 by lia.
  induction (Z.to_nat width) as [|n IH]; [reflexivity|].
  cbn [countdown flat_map]. rewrite length_app. cbn [cycle_writes length]. lia.
Qed.

(** ** Properties of the memory-only operations *)

Lemma mask_bit_shared reg i k :
  in_int reg -> 0 <= i < int_bits -> 0 <= k ->
  Z.testbit (bit_mask i) k = true -> Z.testbit reg k = Z.testbit reg i.
Proof.
  intros Hreg Hi Hk. rewrite bit_mask_bits by lia.
  destruct (Z.ltb_spec i (int_bits - 1)).
  - intros He. apply Z.eqb_eq in He. subst k. reflexivity.
  - intros Hh. apply Z.leb_le in Hh.
    rewrite !in_int_high_bits by (assumption || lia). reflexivity.
Qed.

Lemma written_twice reg i :
  in_int reg -> 0 <= i < int_bits ->
  written (written reg i (lnot_c (bit_of reg i))) i
    (lnot_c (bit_of (written reg i (lnot_c (bit_of reg i))) i)) = reg.
Proof.
  intros Hreg Hi. apply Z.bits_inj'. intros k Hk.
  rewrite written_bits by lia.
  rewrite written_same by lia. rewrite written_bits by lia.
  destruct (Z.testbit (bit_mask i) k) eqn:Hm; [|reflexivity].
  rewrite (mask_bit_shared reg i k) by assumption.
  unfold bit_of, lnot_c. destruct (Z.testbit reg i); reflexivity.
Qed.

Lemma set_reg_twice g a b : set_reg (set_reg g a) b = set_reg g b.
Proof. reflexivity. Qed.

Lemma set_reg_same g : set_reg g (shcp_reg_ g) = g.
Proof. destruct g; reflexivity. Qed.

(** C2: for a chain that fits an [int] and a valid bit index [i],
    after [sreg_write_bit(i, v)] the call [sreg_test_bit(i)] returns 1 when
    [v] is nonzero and 0 when it is zero, and [sreg_test_bit(j)] returns
    what it returned before at every other valid index [j]. *)
Theorem write_bit_then_test_bit g i v :
  in_int (shcp_reg_ g) ->
  8 * sreg_count_ g <= int_bits ->
  0 <= i < 8 * sreg_count_ g ->
  exists g',
    sreg_write_bit i v g = ([], Some (tt, g')) /\
    sreg_test_bit i g' = ([], Some (if v =? 0 then 0 else 1, g')) /\
    forall j, 0 <= j < 8 * sreg_count_ g -> j <> i ->
      exists b, sreg_test_bit j g = ([], Some (b, g)) /\
                sreg_test_bit j g' = ([], Some (b, g')).
Proof.
  intros Hreg Hfit Hi.
  exists (set_reg g (written (shcp_reg_ g) i v)).
  assert (Hreg' : in_int (written (shcp_reg_ g) i v))
    by (apply written_in_int; [assumption|lia]).
  split; [apply write_bit_run; lia|]. split.
  - rewrite test_bit_run by (cbn [set_reg shcp_reg_]; assumption || lia).
    cbn [set_reg shcp_reg_]. rewrite written_same by lia. reflexivity.
  - intros j Hj Hne. exists (bit_of (shcp_reg_ g) j). split.
    + apply test_bit_run; [assumption|lia].
    + rewrite test_bit_run by (cbn [set_reg shcp_reg_]; assumption || lia).
      cbn [set_reg shcp_reg_]. rewrite written_other by lia. reflexivity.
Qed.

(** C6: for a chain that fits an [int] and a valid bit index [i], two calls
    of [sreg_invert_bit(i)] in a row give the register back as it was, so
    [sreg_test_bit(i)] returns its original value (and one call flips it). *)
Theorem invert_bit_involutive g i :
  in_int (shcp_reg_ g) ->
  8 * sreg_count_ g <= int_bits ->
  0 <= i < 8 * sreg_count_ g ->
  (sreg_invert_bit i ;; sreg_invert_bit i) g = ([], Some (tt, g)) /\
  exists b g1,
    sreg_test_bit i g = ([], Some (b, g)) /\
    sreg_invert_bit i g = ([], Some (tt, g1)) /\
    sreg_test_bit i g1 = ([], Some (lnot_c b, g1)) /\
    (sreg_invert_bit i ;; sreg_invert_bit i ;; sreg_test_bit i) g = ([], Some (b, g)).
Proof.
  intros Hreg Hfit Hi.
  assert (Hi' : 0 <= i < int_bits) by lia.
  set (once := written (shcp_reg_ g) i (lnot_c (bit_of (shcp_reg_ g) i))).
  assert (Hreg1 : in_int (shcp_reg_ (set_reg g once)))
    by (apply written_in_int; assumption).
  assert (Htwice : (sreg_invert_bit i ;; sreg_invert_bit i) g = ([], Some (tt, g))).
  { unfold bind. rewrite invert_bit_run by assumption. fold once.
    rewrite invert_bit_run by assumption. rewrite set_reg_twice.
    change (shcp_reg_ (set_reg g once)) with once.
    subst once. rewrite written_twice by assumption.
    rewrite set_reg_same. reflexivity. }
  split; [exact Htwice|].
  exists (bit_of (shcp_reg_ g) i), (set_reg g once).
  split; [apply test_bit_run; assumption|].
  split; [apply invert_bit_run; assumption|]. split.
  - rewrite test_bit_run by assumption. cbn [set_reg shcp_reg_].
    subst once. rewrite written_same by assumption.
    unfold bit_of, lnot_c. destruct (Z.testbit (shcp_reg_ g) i); reflexivity.
  - unfold bind in *. rewrite invert_bit_run in * by assumption. fold once in Htwice |- *.
    destruct (sreg_invert_bit i (set_reg g once)) as [t2 [[u g2]|]];
      cbn [app] in *; [|discriminate].
    injection Htwice as -> _ ->.
    rewrite test_bit_run by assumption. reflexivity.
Qed.

(** C7: [sreg_write_bit] and [sreg_invert_bit] issue no platform call on any
    input, and a call of the public interface that issues one is
    [sreg_init], [sreg_write_bits], [sreg_latch_low] or [sreg_latch_high]. *)
Theorem only_pushes_drive_pins :
  (forall g pin v, calls (sreg_write_bit pin v g) = []) /\
  (forall g pin, calls (sreg_invert_bit pin g) = []) /\
  (forall c g, calls (exec c g) <> [] -> drives_pins c = true).
Proof.
  split; [intros; apply write_bit_calls|].
  split; [intros; apply invert_bit_calls|].
  intros c g. destruct c; cbn [drives_pins]; try reflexivity; intros Hne; exfalso; apply Hne;
    cbn [exec]; unfold bind.
  - pose proof (test_bit_calls g pin) as H.
    destruct (sreg_test_bit pin g) as [t [[v g1]|]]; cbn in H |- *; subst t; reflexivity.
  - reflexivity.
  - pose proof (write_bit_calls g pin bit_value) as H.
    destruct (sreg_write_bit pin bit_value g) as [t [[v g1]|]]; cbn in H |- *; subst t; reflexivity.
  - pose proof (invert_bit_calls g pin) as H.
    destruct (sreg_invert_bit pin g) as [t [[v g1]|]]; cbn in H |- *; subst t; reflexivity.
Qed.

(** ** Properties of the pushes *)

(** C9: [sreg_latch_low] issues exactly three writes, driving the latch
    clock, the data pin and the shift clock low, and nothing else; the
    globals are left as they were. *)
Theorem latch_low_three_writes g :
  sreg_latch_low g =
  ([ DigitalWrite (stcp_ g) 0; DigitalWrite (ds_ g) 0; DigitalWrite (shcp_ g) 0 ],
   Some (tt, g)) /\
  length (calls (sreg_latch_low g)) = 3%nat /\
  Forall (fun e => exists p, e = DigitalWrite p 0) (calls (sreg_latch_low g)).
Proof.
  split; [reflexivity|]. split; [reflexivity|].
  cbn. repeat constructor; eexists; reflexivity.
Qed.

(** C1, for the chain lengths [L] with [0 <= L] and [4 << L] at most the
    width of [int]: [sreg_latch_high] issues, for [i] from [(4 << L) - 1]
    down to [0], shift clock low, data pin at bit [i] of the register, shift
    clock high, data pin low, and then one write of the latch clock high.
    These are [4 * (4 << L) + 1] writes, and when the latch clock has a pin
    of its own it is driven high once and never low. *)
Theorem latch_high_sequence g :
  in_int (shcp_reg_ g) ->
  chain_ok (sreg_count_ g) ->
  sreg_latch_high g =
    (flat_map (cycle_writes g) (countdown (Z.to_nat (Z.shiftl 4 (sreg_count_ g))))
       ++ [ DigitalWrite (stcp_ g) 1 ],
     Some (tt, g)) /\
  Z.of_nat (length (calls (sreg_latch_high g))) = 4 * Z.shiftl 4 (sreg_count_ g) + 1 /\
  (stcp_ g <> ds_ g -> stcp_ g <> shcp_ g ->
   count_high (stcp_ g) (calls (sreg_latch_high g)) = 1%nat /\
   count_low (stcp_ g) (calls (sreg_latch_high g)) = 0%nat).
Proof.
  intros Hreg Hok. destruct (chain_ok_width _ Hok) as (Hn & Hw & Heq).
  rewrite latch_high_run by assumption. unfold calls, latch_high_writes. cbn [fst].
  split; [reflexivity|]. split.
  - rewrite length_app, Nat2Z.inj_add, shift_writes_length by lia. cbn [length]. lia.
  - intros Hd Hc. unfold count_high, count_low, shift_writes.
    rewrite writes_to_app, writes_to_shift_other by assumption.
    cbn [writes_to app]. rewrite Z.eqb_refl. split; reflexivity.
Qed.


(** C3: whatever the register held, after [sreg_write_bits(x)] the call
    [sreg_test_all_bits()] returns [x]. *)
Theorem write_bits_then_test_all_bits g x :
  in_int x ->
  chain_ok (sreg_count_ g) ->
  exists t g',
    sreg_write_bits x g = (t, Some (tt, g')) /\
    sreg_test_all_bits g' = ([], Some (x, g')) /\
    outcome ((sreg_write_bits x ;; sreg_test_all_bits) g) = Some (x, g').
Proof.
  intros Hx Hok. eexists _, (set_reg g x).
  split; [apply write_bits_run; assumption|].
  split; [reflexivity|].
  unfold bind. rewrite write_bits_run by assumption. reflexivity.
Qed.

(** C10: [sreg_latch_low] and [sreg_latch_high] leave the globals, in
    particular the register, as they were: [sreg_test_all_bits] returns the
    same value after either call as before. *)
Theorem latches_keep_register g :
  in_int (shcp_reg_ g) ->
  chain_ok (sreg_count_ g) ->
  outcome (sreg_latch_low g) = Some (tt, g) /\
  outcome (sreg_latch_high g) = Some (tt, g) /\
  outcome ((sreg_latch_low ;; sreg_test_all_bits) g) = outcome (sreg_test_all_bits g) /\
  outcome ((sreg_latch_high ;; sreg_test_all_bits) g) = outcome (sreg_test_all_bits g).
Proof.
  intros Hreg Hok.
  split; [reflexivity|].
  split; [rewrite latch_high_run by assumption; reflexivity|].
  split; [reflexivity|].
  unfold bind. rewrite latch_high_run by assumption. reflexivity.
Qed.

(** ** What the register chain sees *)

Lemma chain_run_app w h t1 t2 :
  chain_run w h (t1 ++ t2) = chain_run w (chain_run w h t1) t2.
Proof. apply fold_left_app. Qed.

(** One shift cycle clocks bit [i] into the shift stage and touches
    neither the latch line nor the outputs. *)
Lemma chain_cycle g h i :
  separate_pins (wiring_of g) ->
  let h' := chain_run (wiring_of g) h (cycle_writes g i) in
  stcp_level h' = stcp_level h /\
  outputs h' = outputs h /\
  shift_stage h' =
    (2 * shift_stage h + Z.b2z (Z.testbit (shcp_reg_ g) i)) mod 2 ^ (8 * sreg_count_ g).
Proof.
  intros (Hdc & Hdl & Hcl). cbn [wiring_of w_ds w_shcp w_stcp] in *.
  unfold cycle_writes, bit_of. cbn [chain_run fold_left chain_step wiring_of w_ds w_shcp w_stcp w_chips].
  rewrite !Z.eqb_refl.
  destruct (Z.eqb_spec (shcp_ g) (ds_ g)) as [E|_]; [congruence|].
  destruct (Z.testbit (shcp_reg_ g) i);
    cbn [Z.eqb negb andb ds_level shcp_level stcp_level shift_stage outputs Z.b2z];
    rewrite ?andb_false_r, ?andb_true_r; repeat split; reflexivity.
Qed.

Lemma low_bits_step z k :
  0 <= k -> z mod 2 ^ (k + 1) = 2 ^ k * Z.b2z (Z.testbit z k) + z mod 2 ^ k.
Proof.
  intros Hk. rewrite Z.pow_add_r by lia. rewrite Z.pow_1_r.
  assert (0 < 2 ^ k) by (apply Z.pow_pos_nonneg; lia).
  rewrite Z.rem_mul_r by lia. rewrite Z.testbit_spec' by lia. lia.
Qed.

(** After the cycles for the bits [n-1], ..., [0] the shift stage holds
    what it held, moved up by [n] places, followed by these [n] bits. *)
Lemma chain_shift g n : forall h,
  separate_pins (wiring_of g) -> 0 <= sreg_count_ g ->
  let h' := chain_run (wiring_of g) h (flat_map (cycle_writes g) (countdown n)) in
  stcp_level h' = stcp_level h /\
  outputs h' = outputs h /\
  shift_stage h' mod 2 ^ (8 * sreg_count_ g) =
    (2 ^ Z.of_nat n * shift_stage h + shcp_reg_ g mod 2 ^ Z.of_nat n)
      mod 2 ^ (8 * sreg_count_ g).
Proof.
  induction n as [|n IH]; intros h Hsep Hc.
  - cbn [countdown flat_map chain_run fold_left Z.of_nat].
    rewrite Z.pow_0_r, Z.mod_1_r, Z.mul_1_l, Z.add_0_r. repeat split; reflexivity.
  - cbn [countdown flat_map]. cbv zeta. rewrite chain_run_app.
    destruct (chain_cycle g h (Z.of_nat n) Hsep) as (Hl & Ho & Hs).
    destruct (IH (chain_run (wiring_of g) h (cycle_writes g (Z.of_nat n))) Hsep Hc)
      as (Hl' & Ho' & Hs').
    split; [congruence|]. split; [congruence|].
    rewrite Hs', Hs. clear Hs' Hs Hl Ho Hl' Ho' IH.
    set (m := 2 ^ (8 * sreg_count_ g)).
    assert (Hm : 0 < m) by (apply Z.pow_pos_nonneg; lia).
    rewrite Nat2Z.inj_succ, <- Z.add_1_r.
    rewrite low_bits_step by lia. rewrite Z.pow_add_r by lia. rewrite Z.pow_1_r.
    rewrite Z.add_mod by lia. rewrite Z.mul_mod_idemp_r by lia.
    rewrite <- Z.add_mod by lia. f_equal. ring.
Qed.

Lemma width_covers_chain n : 0 <= n -> 8 * n <= Z.shiftl 4 n.
Proof.
  intros Hn. rewrite Z.shiftl_mul_pow2 by lia.
  destruct (Z.eq_dec n 0) as [->|Hne]; [cbn; lia|].
  replace n with (1 + (n - 1)) at 2 by lia. rewrite Z.pow_add_r by lia.
  assert (n - 1 < 2 ^ (n - 1)) by (apply Z.pow_gt_lin_r; lia). lia.
Qed.

(** All the cycles of [sreg_latch_high] leave the output bits of the
    register in the shift stage, whatever it held. *)
Lemma chain_shift_all g h :
  separate_pins (wiring_of g) -> 0 <= sreg_count_ g ->
  let h' := chain_run (wiring_of g) h (shift_writes g (Z.shiftl 4 (sreg_count_ g))) in
  stcp_level h' = stcp_level h /\
  outputs h' = outputs h /\
  shift_stage h' mod 2 ^ (8 * sreg_count_ g) = shcp_reg_ g mod 2 ^ (8 * sreg_count_ g).
Proof.
  intros Hsep Hc. cbv zeta. unfold shift_writes.
  destruct (chain_shift g (Z.to_nat (Z.shiftl 4 (sreg_count_ g))) h Hsep Hc)
    as (Hl & Ho & Hs).
  split; [exact Hl|]. split; [exact Ho|]. rewrite Hs.
  pose proof (width_covers_chain _ Hc) as Hcover.
  rewrite Z2Nat.id by lia.
  set (width := Z.shiftl 4 (sreg_count_ g)) in *.
  assert (Hsplit : 2 ^ width = 2 ^ (8 * sreg_count_ g) * 2 ^ (width - 8 * sreg_count_ g)).
  { rewrite <- Z.pow_add_r by lia. f_equal. lia. }
  assert (Hm : 0 < 2 ^ (8 * sreg_count_ g)) by (apply Z.pow_pos_nonneg; lia).
  assert (Hr : 0 < 2 ^ (width - 8 * sreg_count_ g)) by (apply Z.pow_pos_nonneg; lia).
  rewrite Hsplit.
  rewrite Z.rem_mul_r by lia.
  rewrite <- Z.mul_assoc, Z.add_assoc, (Z.add_comm _ (shcp_reg_ g mod _)), <- !Z.add_assoc.
  rewrite <- Z.mul_add_distr_l, (Z.mul_comm (2 ^ (8 * sreg_count_ g))).
  rewrite Z.mod_add by lia. apply Z.mod_mod; lia.
Qed.

Lemma synced_mod g h :
  0 <= sreg_count_ g ->
  outputs h mod 2 ^ (8 * sreg_count_ g) = shcp_reg_ g mod 2 ^ (8 * sreg_count_ g) ->
  synced g h.
Proof.
  intros Hc Hmod i Hi.
  rewrite <- (Z.mod_pow2_bits_low (outputs h) (8 * sreg_count_ g) i) by lia.
  rewrite Hmod. apply Z.mod_pow2_bits_low; lia.
Qed.

Lemma chain_latch_low g h :
  separate_pins (wiring_of g) ->
  let h' := chain_run (wiring_of g) h (latch_low_writes g) in
  stcp_level h' = false /\ outputs h' = outputs h.
Proof.
  intros (Hdc & Hdl & Hcl). cbn [wiring_of w_ds w_shcp w_stcp] in *.
  unfold latch_low_writes.
  cbn [chain_run fold_left chain_step wiring_of w_ds w_shcp w_stcp w_chips].
  rewrite !Z.eqb_refl.
  destruct (Z.eqb_spec (stcp_ g) (ds_ g)) as [E|_]; [congruence|].
  destruct (Z.eqb_spec (stcp_ g) (shcp_ g)) as [E|_]; [congruence|].
  destruct (Z.eqb_spec (shcp_ g) (ds_ g)) as [E|_]; [congruence|].
  cbn [Z.eqb negb andb ds_level shcp_level stcp_level shift_stage outputs].
  rewrite ?andb_false_r. split; reflexivity.
Qed.

(** The closing write of [sreg_latch_high] copies the shift stage to the
    outputs when it raises the latch line, and changes no output when the
    line was high already. *)
Lemma chain_latch_high g h :
  separate_pins (wiring_of g) -> 0 <= sreg_count_ g ->
  let h' := chain_run (wiring_of g) h (latch_high_writes g) in
  (stcp_level h = false -> synced g h') /\
  (stcp_level h = true -> outputs h' = outputs h).
Proof.
  intros Hsep Hc. cbv zeta. unfold latch_high_writes. rewrite chain_run_app.
  destruct (chain_shift_all g h Hsep Hc) as (Hl & Ho & Hs).
  set (h1 := chain_run (wiring_of g) h (shift_writes g (Z.shiftl 4 (sreg_count_ g)))) in *.
  destruct Hsep as (Hdc & Hdl & Hcl). cbn [wiring_of w_ds w_shcp w_stcp] in *.
  cbn [chain_run fold_left chain_step wiring_of w_ds w_shcp w_stcp w_chips].
  rewrite Z.eqb_refl.
  destruct (Z.eqb_spec (stcp_ g) (ds_ g)) as [E|_]; [congruence|].
  destruct (Z.eqb_spec (stcp_ g) (shcp_ g)) as [E|_]; [congruence|].
  rewrite Hl. cbn [Z.eqb negb]. split; intros Hlevel; rewrite Hlevel; cbn [negb andb].
  - apply synced_mod; [exact Hc|]. exact Hs.
  - exact Ho.
Qed.

(** A full push, latch low then latch high, brings the outputs in line
    with the register from any state of the chain. *)
Lemma chain_push g h :
  separate_pins (wiring_of g) -> 0 <= sreg_count_ g ->
  synced g (chain_run (wiring_of g) h (latch_low_writes g ++ latch_high_writes g)).
Proof.
  intros Hsep Hc. rewrite chain_run_app.
  destruct (chain_latch_low g h Hsep) as (Hl & _).
  apply (chain_latch_high g _ Hsep Hc). exact Hl.
Qed.

(** ** Bit order, initialisation and the mirror *)

(** C4, as the code has it: during the shift sequence of a push the first
    value driven onto the data pin is the top bit, of index [(4 << L) - 1],
    and the cycle of bit 0 is the last one before the latch clock rises. *)
Theorem top_bit_shifted_out_first g :
  in_int (shcp_reg_ g) ->
  chain_ok (sreg_count_ g) ->
  ds_ g <> shcp_ g ->
  first_data g (calls (sreg_latch_high g)) =
    Some (bit_of (shcp_reg_ g) (Z.shiftl 4 (sreg_count_ g) - 1)) /\
  exists t, calls (sreg_latch_high g) =
            t ++ cycle_writes g 0 ++ [ DigitalWrite (stcp_ g) 1 ].
Proof.
  intros Hreg Hok Hpins. destruct (chain_ok_width _ Hok) as (Hn & Hw & Heq).
  rewrite latch_high_run by assumption. unfold calls, latch_high_writes, shift_writes.
  cbn [fst].
  destruct (Z.to_nat (Z.shiftl 4 (sreg_count_ g))) as [|k] eqn:Hk; [lia|].
  split.
  - cbn [countdown flat_map]. unfold first_data, cycle_writes.
    cbn [app writes_to]. rewrite Z.eqb_refl.
    destruct (Z.eqb_spec (shcp_ g) (ds_ g)); [congruence|].
    cbn [hd_error]. do 2 f_equal. lia.
  - rewrite countdown_last, flat_map_app. cbn [flat_map].
    rewrite app_nil_r, <- app_assoc. eexists. reflexivity.
Qed.

Lemma small_values_in_int z : 0 <= z <= 15 -> in_int z.
Proof.
  intros Hz. pose proof width_below_half. unfold in_int, int_min, int_max. lia.
Qed.

Lemma one_chip_ok : chain_ok 1.
Proof. unfold chain_ok. cbn. lia. Qed.

(** C8: [sreg_init] stores its arguments in the globals, sets the three
    pins as outputs and pushes [init_value] right away: latch low, the shift
    sequence of [init_value], latch high, as [sreg_write_bits] does.  After
    [sreg_init(2, 3, 4, 0b00000011, 1)] the bits 0 and 1 test as 1 and bit 2
    as 0. *)
Theorem init_configures_and_pushes g ds shcp stcp v n :
  in_int v ->
  chain_ok n ->
  sreg_init ds shcp stcp v n g =
    ([ PinMode ds OUTPUT; PinMode shcp OUTPUT; PinMode stcp OUTPUT ]
       ++ latch_low_writes (mkGlobals ds shcp stcp n v)
       ++ latch_high_writes (mkGlobals ds shcp stcp n v),
     Some (tt, mkGlobals ds shcp stcp n v)) /\
  calls (sreg_init ds shcp stcp v n g) =
    [ PinMode ds OUTPUT; PinMode shcp OUTPUT; PinMode stcp OUTPUT ]
      ++ calls (sreg_write_bits v (mkGlobals ds shcp stcp n (shcp_reg_ g))) /\
  (forall g0, exists t g1,
     sreg_init 2 3 4 3 1 g0 = (t, Some (tt, g1)) /\
     sreg_test_bit 0 g1 = ([], Some (1, g1)) /\
     sreg_test_bit 1 g1 = ([], Some (1, g1)) /\
     sreg_test_bit 2 g1 = ([], Some (0, g1))).
Proof.
  intros Hv Hok. split; [apply init_run; assumption|]. split.
  - rewrite init_run by assumption.
    rewrite write_bits_run by assumption. reflexivity.
  - intros g0. eexists _, (mkGlobals 2 3 4 1 3).
    split; [apply init_run; [apply small_values_in_int; lia|apply one_chip_ok]|].
    repeat split;
      (rewrite test_bit_run by (cbn [shcp_reg_]; try apply small_values_in_int; lia);
       reflexivity).
Qed.

(** C5, as the code has it: every call other than [sreg_write_bit] and
    [sreg_invert_bit] completes with the register equal, on all output
    bits, to what the chain last latched, provided it was so before the
    call; [sreg_init] and [sreg_write_bits] make it so from any state. *)
Theorem pushes_keep_mirror_synced c g h :
  in_int (shcp_reg_ g) ->
  defined_call c g ->
  memory_write c = false ->
  separate_pins (wiring_after c g) ->
  full_push c = true \/ synced g h ->
  exists r g',
    outcome (exec c g) = Some (r, g') /\
    wiring_of g' = wiring_after c g /\
    synced g' (chain_run (wiring_after c g) h (calls (exec c g))).
Proof.
  intros Hreg Hdef Hmem Hsep Hpre.
  destruct c; cbn [memory_write] in Hmem; try discriminate;
    cbn [defined_call wiring_after full_push] in *; cbn [exec].
  - destruct Hdef as (Hv & Hok).
    rewrite (bind_ret_run _ _ _ _ _ _ (init_run g ds shcp stcp init_value sreg_count Hv Hok)).
    eexists _, _. split; [reflexivity|]. split; [reflexivity|].
    unfold calls. cbn [fst]. rewrite chain_run_app.
    apply (chain_push (mkGlobals ds shcp stcp sreg_count init_value)); [exact Hsep|].
    apply Hok.
  - rewrite (bind_ret_run _ _ _ _ _ _ (test_bit_run g pin Hreg Hdef)).
    eexists _, _. split; [reflexivity|]. split; [reflexivity|].
    destruct Hpre as [Hf|Hs]; [discriminate|exact Hs].
  - rewrite (bind_ret_run _ _ _ _ _ _ (test_all_bits_run g)).
    eexists _, _. split; [reflexivity|]. split; [reflexivity|].
    destruct Hpre as [Hf|Hs]; [discriminate|exact Hs].
  - destruct Hdef as (Hv & Hok).
    rewrite (bind_ret_run _ _ _ _ _ _ (write_bits_run g bits Hv Hok)).
    eexists _, _. split; [reflexivity|]. split; [reflexivity|].
    unfold calls. cbn [fst].
    apply (chain_push (set_reg g bits)); [exact Hsep|]. apply Hok.
  - rewrite (bind_ret_run _ _ _ _ _ _ (latch_low_run g)).
    eexists _, _. split; [reflexivity|]. split; [reflexivity|].
    unfold calls. cbn [fst].
    destruct Hpre as [Hf|Hs]; [discriminate|].
    destruct (chain_latch_low g h Hsep) as (_ & Ho).
    intros i Hi. rewrite Ho. apply Hs; exact Hi.
  - rewrite (bind_ret_run _ _ _ _ _ _ (latch_high_run g Hreg Hdef)).
    eexists _, _. split; [reflexivity|]. split; [reflexivity|].
    unfold calls. cbn [fst].
    destruct Hpre as [Hf|Hs]; [discriminate|].
    destruct (chain_latch_high g h Hsep (proj1 Hdef)) as (Hrise & Hstay).
    destruct (stcp_level h) eqn:Hlevel.
    + intros i Hi. rewrite Hstay by reflexivity. apply Hs; exact Hi.
    + apply Hrise; reflexivity.
Qed.

(** ** Further properties of the bit operations *)

Lemma bit_mask_weight i : 0 <= i < int_bits -> bit_mask i = bit_weight i.
Proof.
  intros Hi. apply Z.bits_inj'. intros k Hk.
  rewrite bit_mask_bits by lia. unfold bit_weight.
  destruct (Z.ltb_spec i (int_bits - 1)).
  - symmetry. apply Z.pow2_bits_eqb; lia.
  - symmetry. apply int_min_bits; exact Hk.
Qed.

Lemma land_mask_value reg i :
  in_int reg -> 0 <= i < int_bits ->
  Z.land reg (bit_mask i) = bit_of reg i * bit_mask i.
Proof.
  intros Hreg Hi. unfold bit_of. destruct (Z.testbit reg i) eqn:Hb.
  - rewrite Z.mul_1_l. apply Z.bits_inj'. intros k Hk. rewrite Z.land_spec.
    destruct (Z.testbit (bit_mask i) k) eqn:Hm; [|apply andb_false_r].
    rewrite (mask_bit_shared reg i k) by assumption. rewrite Hb. reflexivity.
  - rewrite Z.mul_0_l. apply Z.bits_inj'. intros k Hk.
    rewrite Z.land_spec, Z.bits_0.
    destruct (Z.testbit (bit_mask i) k) eqn:Hm; [|apply andb_false_r].
    rewrite (mask_bit_shared reg i k) by assumption. rewrite Hb. reflexivity.
Qed.

Lemma written_value reg i v :
  in_int reg -> 0 <= i < int_bits ->
  written reg i v =
  reg + ((if v =? 0 then 0 else 1) - bit_of reg i) * bit_mask i.
Proof.
  intros Hreg Hi. unfold written.
  set (m := bit_mask i).
  set (b := if v =? 0 then 0 else m).
  assert (Hb : b = (if v =? 0 then 0 else 1) * m)
    by (subst b; destruct (v =? 0); lia).
  assert (Hkeep : Z.land reg (Z.lnot m) + Z.land reg m = reg).
  { rewrite Z.add_nocarry_lxor.
    - apply Z.bits_inj'. intros k Hk.
      rewrite Z.lxor_spec, !Z.land_spec, Z.lnot_spec by lia.
      destruct (Z.testbit reg k), (Z.testbit m k); reflexivity.
    - apply Z.bits_inj'. intros k Hk.
      rewrite !Z.land_spec, Z.lnot_spec, Z.bits_0 by lia.
      destruct (Z.testbit reg k), (Z.testbit m k); reflexivity. }
  assert (Hset : Z.lor (Z.land reg (Z.lnot m)) b = Z.land reg (Z.lnot m) + b).
  { rewrite <- Z.lxor_lor, <- Z.add_nocarry_lxor; [reflexivity| |];
      (apply Z.bits_inj'; intros k Hk;
       rewrite !Z.land_spec, Z.lnot_spec, Z.bits_0 by lia;
       subst b; destruct (v =? 0); rewrite ?Z.bits_0;
       destruct (Z.testbit reg k), (Z.testbit m k); reflexivity). }
  pose proof (land_mask_value reg i Hreg Hi) as Hold. fold m in Hold.
  rewrite Hset, Hb, Z.mul_sub_distr_r. lia.
Qed.

(** X1: [sreg_test_bit(pin)] returns bit [pin] of the value that
    [sreg_test_all_bits()] returns, in two's complement and the sign bit
    included, that is [(all >> pin) & 1]; it changes nothing. *)
Theorem test_bit_is_bit_of_all_bits g pin :
  in_int (shcp_reg_ g) -> 0 <= pin < int_bits ->
  exists v all,
    sreg_test_bit pin g = ([], Some (v, g)) /\
    sreg_test_all_bits g = ([], Some (all, g)) /\
    v = Z.b2z (Z.testbit all pin) /\
    v = (all / 2 ^ pin) mod 2.
Proof.
  intros Hreg Hpin. exists (bit_of (shcp_reg_ g) pin), (shcp_reg_ g).
  split; [apply test_bit_run; assumption|]. split; [reflexivity|].
  assert (Hv : bit_of (shcp_reg_ g) pin = Z.b2z (Z.testbit (shcp_reg_ g) pin))
    by (unfold bit_of; destruct (Z.testbit (shcp_reg_ g) pin); reflexivity).
  split; [exact Hv|]. rewrite Hv. apply Z.testbit_spec'. lia.
Qed.

(** X2: the three bit operations have a result exactly for the bit
    indices from 0 to the width of [int] minus one; any other index is an
    undefined shift. *)
Theorem bit_index_bounds g pin v :
  (outcome (sreg_test_bit pin g) <> None <-> 0 <= pin < int_bits) /\
  (outcome (sreg_write_bit pin v g) <> None <-> 0 <= pin < int_bits) /\
  (outcome (sreg_invert_bit pin g) <> None <-> 0 <= pin < int_bits).
Proof.
  assert (Hdec : 0 <= pin < int_bits \/ ~ 0 <= pin < int_bits) by lia.
  assert (Htest : 0 <= pin < int_bits ->
                  sreg_test_bit pin g =
                  ([], Some (truth (Z.land (shcp_reg_ g) (bit_mask pin)), g))).
  { intros Hpin. unfold sreg_test_bit, read, bind, get, ret, lift.
    rewrite shl_one by exact Hpin. reflexivity. }
  split; [|split]; (split; intros H).
  - destruct Hdec as [Hin|Hout]; [exact Hin|].
    rewrite test_bit_undefined in H by exact Hout. contradiction.
  - rewrite Htest by exact H. discriminate.
  - destruct Hdec as [Hin|Hout]; [exact Hin|].
    rewrite write_bit_undefined in H by exact Hout. contradiction.
  - rewrite write_bit_run by exact H. discriminate.
  - destruct Hdec as [Hin|Hout]; [exact Hin|].
    rewrite invert_bit_undefined in H by exact Hout. contradiction.
  - unfold sreg_invert_bit, bind. rewrite Htest by exact H.
    rewrite write_bit_run by exact H. discriminate.
Qed.

(** X3: the answers of [sreg_test_bit] over all bit indices of an [int]
    determine the register: two states that agree on every bit test agree
    on [sreg_test_all_bits]. *)
Theorem test_bits_determine_register g1 g2 :
  in_int (shcp_reg_ g1) -> in_int (shcp_reg_ g2) ->
  (forall pin, 0 <= pin < int_bits ->
     exists v, sreg_test_bit pin g1 = ([], Some (v, g1)) /\
               sreg_test_bit pin g2 = ([], Some (v, g2))) ->
  exists all, sreg_test_all_bits g1 = ([], Some (all, g1)) /\
              sreg_test_all_bits g2 = ([], Some (all, g2)).
Proof.
  intros H1 H2 Hsame. exists (shcp_reg_ g1). split; [reflexivity|].
  assert (Hbits : forall k, 0 <= k < int_bits ->
            Z.testbit (shcp_reg_ g1) k = Z.testbit (shcp_reg_ g2) k).
  { intros k Hk. destruct (Hsame k Hk) as (v & Ha & Hb).
    rewrite test_bit_run in Ha, Hb by assumption.
    assert (Heq : bit_of (shcp_reg_ g1) k = bit_of (shcp_reg_ g2) k) by congruence.
    unfold bit_of in Heq.
    destruct (Z.testbit (shcp_reg_ g1) k), (Z.testbit (shcp_reg_ g2) k);
      congruence. }
  assert (Heq : shcp_reg_ g1 = shcp_reg_ g2).
  { apply Z.bits_inj'. intros k Hk.
    destruct (Z.lt_ge_cases k int_bits) as [Hlow|Hhigh]; [apply Hbits; lia|].
    rewrite (in_int_high_bits (shcp_reg_ g1)), (in_int_high_bits (shcp_reg_ g2))
      by (assumption || lia).
    rewrite <- (in_int_high_bits (shcp_reg_ g1) (int_bits - 1)),
            <- (in_int_high_bits (shcp_reg_ g2) (int_bits - 1))
      by (assumption || lia).
    apply Hbits; lia. }
  unfold sreg_test_all_bits, read, bind, get, ret. rewrite Heq. reflexivity.
Qed.

(** X4: [sreg_write_bit(pin, v)] moves the value of the register by the
    weight of the bit, [2^pin] or [int_min] at the sign bit: up when the
    bit was 0 and [v] is nonzero, down when it was 1 and [v] is zero, not
    at all otherwise.  The pins and the chain length stay. *)
Theorem write_bit_adjusts_value g pin v :
  in_int (shcp_reg_ g) -> 0 <= pin < int_bits ->
  exists g',
    sreg_write_bit pin v g = ([], Some (tt, g')) /\
    wiring_of g' = wiring_of g /\
    shcp_reg_ g' =
      shcp_reg_ g
      + ((if v =? 0 then 0 else 1) - Z.b2z (Z.testbit (shcp_reg_ g) pin))
        * bit_weight pin.
Proof.
  intros Hreg Hpin. eexists. split; [apply write_bit_run; exact Hpin|].
  split; [reflexivity|]. cbn [set_reg shcp_reg_].
  rewrite written_value, bit_mask_weight by assumption.
  unfold bit_of. destruct (Z.testbit (shcp_reg_ g) pin); reflexivity.
Qed.

Lemma written_overwrite reg i v u :
  0 <= i < int_bits -> written (written reg i v) i u = written reg i u.
Proof.
  intros Hi. apply Z.bits_inj'. intros k Hk. rewrite !written_bits by lia.
  destruct (Z.testbit (bit_mask i) k); reflexivity.
Qed.

Lemma masks_disjoint i j k :
  0 <= i < int_bits -> 0 <= j < int_bits -> i <> j -> 0 <= k ->
  Z.testbit (bit_mask i) k = true -> Z.testbit (bit_mask j) k = false.
Proof.
  intros Hi Hj Hne Hk. rewrite !bit_mask_bits by lia.
  destruct (Z.ltb_spec i (int_bits - 1)), (Z.ltb_spec j (int_bits - 1));
    lia.
Qed.

Lemma written_commute reg i j v u :
  0 <= i < int_bits -> 0 <= j < int_bits -> i <> j ->
  written (written reg i v) j u = written (written reg j u) i v.
Proof.
  intros Hi Hj Hne. apply Z.bits_inj'. intros k Hk. rewrite !written_bits by lia.
  destruct (Z.testbit (bit_mask i) k) eqn:Hm.
  - rewrite (masks_disjoint i j k) by assumption. reflexivity.
  - reflexivity.
Qed.

Lemma written_flip reg i :
  in_int reg -> 0 <= i < int_bits ->
  written reg i (lnot_c (bit_of reg i)) = Z.lxor reg (bit_mask i).
Proof.
  intros Hreg Hi. apply Z.bits_inj'. intros k Hk.
  rewrite written_bits, Z.lxor_spec by lia.
  destruct (Z.testbit (bit_mask i) k) eqn:Hm; [|rewrite xorb_false_r; reflexivity].
  rewrite (mask_bit_shared reg i k) by assumption.
  unfold bit_of, lnot_c. destruct (Z.testbit reg i); reflexivity.
Qed.

(** X5: of two [sreg_write_bit] calls on the same bit the last one wins;
    in particular repeating a write changes nothing more.  On an index out
    of range both sides are undefined. *)
Theorem write_bit_last_wins g pin v u :
  (sreg_write_bit pin v ;; sreg_write_bit pin u) g = sreg_write_bit pin u g.
Proof.
  assert (Hdec : 0 <= pin < int_bits \/ ~ 0 <= pin < int_bits) by lia.
  unfold bind. destruct Hdec as [Hin|Hout].
  - rewrite !write_bit_run by exact Hin. rewrite set_reg_twice.
    change (shcp_reg_ (set_reg g (written (shcp_reg_ g) pin v)))
      with (written (shcp_reg_ g) pin v).
    rewrite written_overwrite by exact Hin. reflexivity.
  - rewrite !write_bit_undefined by exact Hout. reflexivity.
Qed.

(** X6: [sreg_write_bit] calls on different bits commute. *)
Theorem write_bit_commutes g i j v u :
  i <> j ->
  (sreg_write_bit i v ;; sreg_write_bit j u) g =
  (sreg_write_bit j u ;; sreg_write_bit i v) g.
Proof.
  intros Hne.
  assert (Hi : 0 <= i < int_bits \/ ~ 0 <= i < int_bits) by lia.
  assert (Hj : 0 <= j < int_bits \/ ~ 0 <= j < int_bits) by lia.
  unfold bind. destruct Hi as [Hi|Hi], Hj as [Hj|Hj].
  - rewrite !write_bit_run by assumption. rewrite !set_reg_twice.
    change (shcp_reg_ (set_reg g (written (shcp_reg_ g) i v)))
      with (written (shcp_reg_ g) i v).
    change (shcp_reg_ (set_reg g (written (shcp_reg_ g) j u)))
      with (written (shcp_reg_ g) j u).
    rewrite written_commute by assumption. reflexivity.
  - rewrite (write_bit_run g i) by assumption.
    rewrite !(write_bit_undefined _ j) by assumption. reflexivity.
  - rewrite (write_bit_run g j) by assumption.
    rewrite !(write_bit_undefined _ i) by assumption. reflexivity.
  - rewrite (write_bit_undefined g i), (write_bit_undefined g j) by assumption.
    reflexivity.
Qed.

(** X7: [sreg_invert_bit(pin)] is an exclusive or of the register with
    [1 << pin]; every other bit tests as before. *)
Theorem invert_bit_is_xor g pin :
  in_int (shcp_reg_ g) -> 0 <= pin < int_bits ->
  exists g',
    sreg_invert_bit pin g = ([], Some (tt, g')) /\
    wiring_of g' = wiring_of g /\
    shcp_reg_ g' = Z.lxor (shcp_reg_ g) (bit_weight pin) /\
    forall j, 0 <= j < int_bits -> j <> pin ->
      exists b, sreg_test_bit j g = ([], Some (b, g)) /\
                sreg_test_bit j g' = ([], Some (b, g')).
Proof.
  intros Hreg Hpin. eexists. split; [apply invert_bit_run; assumption|].
  split; [reflexivity|]. split.
  - cbn [set_reg shcp_reg_]. rewrite written_flip, bit_mask_weight by assumption.
    reflexivity.
  - intros j Hj Hne. exists (bit_of (shcp_reg_ g) j).
    split; [apply test_bit_run; assumption|].
    rewrite test_bit_run
      by (cbn [set_reg shcp_reg_]; try apply written_in_int; assumption).
    cbn [set_reg shcp_reg_]. rewrite written_other by assumption. reflexivity.
Qed.

(** ** Further properties of the pushes *)

Lemma write_bits_unfold g x :
  sreg_write_bits x g =
  (latch_low_writes (set_reg g x) ++ calls (sreg_latch_high (set_reg g x)),
   outcome (sreg_latch_high (set_reg g x))).
Proof.
  unfold sreg_write_bits, assign_shcp_reg, bind, get, put.
  fold (set_reg g x). rewrite latch_low_run.
  destruct (sreg_latch_high (set_reg g x)) as [t r]. reflexivity.
Qed.

Lemma init_unfold g ds shcp stcp v n :
  sreg_init ds shcp stcp v n g =
  ([PinMode ds OUTPUT; PinMode shcp OUTPUT; PinMode stcp OUTPUT]
     ++ latch_low_writes (mkGlobals ds shcp stcp n v)
     ++ calls (sreg_latch_high (mkGlobals ds shcp stcp n v)),
   outcome (sreg_latch_high (mkGlobals ds shcp stcp n v))).
Proof.
  unfold sreg_init, assign_ds, assign_shcp, assign_stcp, assign_sreg_count,
    read, pinMode, emit, bind, get, put, ret.
  cbn [ds_ shcp_ stcp_ sreg_count_ shcp_reg_].
  rewrite write_bits_unfold. reflexivity.
Qed.


Lemma writes_to_cycles_clock g l :
  shcp_ g <> ds_ g ->
  writes_to (shcp_ g) (flat_map (cycle_writes g) l) = flat_map (fun _ => [0; 1]) l.
Proof.
  intros Hne. induction l as [|i l IH]; [reflexivity|].
  cbn [flat_map]. rewrite writes_to_app, IH. unfold cycle_writes.
  cbn [writes_to]. rewrite Z.eqb_refl.
  destruct (Z.eqb_spec (ds_ g) (shcp_ g)); [congruence|]. reflexivity.
Qed.

Lemma writes_to_cycles_data g l :
  shcp_ g <> ds_ g ->
  writes_to (ds_ g) (flat_map (cycle_writes g) l) =
  flat_map (fun i => [bit_of (shcp_reg_ g) i; 0]) l.
Proof.
  intros Hne. induction l as [|i l IH]; [reflexivity|].
  cbn [flat_map]. rewrite writes_to_app, IH. unfold cycle_writes.
  cbn [writes_to]. rewrite Z.eqb_refl.
  destruct (Z.eqb_spec (shcp_ g) (ds_ g)); [congruence|]. reflexivity.
Qed.

(** X9: what each pin sees during [sreg_latch_high] when the three pins
    differ: the shift clock goes low, high once per bit; the data pin takes
    the bits from the top one down to bit 0, returning to low after each;
    the latch clock is written once, high. *)
Theorem latch_high_per_pin g :
  in_int (shcp_reg_ g) -> chain_ok (sreg_count_ g) ->
  separate_pins (wiring_of g) ->
  writes_to (shcp_ g) (calls (sreg_latch_high g)) =
    flat_map (fun _ => [0; 1]) (countdown (Z.to_nat (Z.shiftl 4 (sreg_count_ g)))) /\
  writes_to (ds_ g) (calls (sreg_latch_high g)) =
    flat_map (fun i => [bit_of (shcp_reg_ g) i; 0])
      (countdown (Z.to_nat (Z.shiftl 4 (sreg_count_ g)))) /\
  writes_to (stcp_ g) (calls (sreg_latch_high g)) = [1].
Proof.
  intros Hreg Hok (Hdc & Hdl & Hcl). cbn [wiring_of w_ds w_shcp w_stcp] in *.
  rewrite latch_high_run by assumption. unfold calls, latch_high_writes, shift_writes.
  cbn [fst]. rewrite !writes_to_app. cbn [writes_to].
  rewrite Z.eqb_refl.
  destruct (Z.eqb_spec (stcp_ g) (shcp_ g)); [congruence|].
  destruct (Z.eqb_spec (stcp_ g) (ds_ g)); [congruence|].
  rewrite writes_to_cycles_clock, writes_to_cycles_data by congruence.
  rewrite writes_to_shift_other by congruence.
  rewrite !app_nil_r. repeat split; reflexivity.
Qed.

(** X10: [sreg_write_bit] followed by [sreg_latch_low] and
    [sreg_latch_high] does what [sreg_write_bits] does with the value the
    register then has: same writes, same outcome. *)
Theorem write_bit_then_latches g pin v :
  0 <= pin < int_bits ->
  exists x g',
    sreg_write_bit pin v g = ([], Some (tt, g')) /\
    sreg_test_all_bits g' = ([], Some (x, g')) /\
    (sreg_write_bit pin v ;; sreg_latch_low ;; sreg_latch_high) g =
    sreg_write_bits x g.
Proof.
  intros Hpin. eexists _, _. split; [apply write_bit_run; exact Hpin|].
  split; [reflexivity|].
  rewrite write_bits_unfold. unfold bind at 1. rewrite write_bit_run by exact Hpin.
  unfold bind. rewrite latch_low_run. cbn [set_reg shcp_reg_ ds_ shcp_ stcp_ sreg_count_].
  fold (set_reg g (written (shcp_reg_ g) pin v)).
  destruct (sreg_latch_high (set_reg g (written (shcp_reg_ g) pin v))) as [t r].
  reflexivity.
Qed.

(** ** What the calls leave alone *)

Lemma bind_ret_calls {A B} (m : M A) (f : A -> B) g :
  calls ((x <- m ;; ret (f x)) g) = calls (m g).
Proof.
  unfold bind, ret, calls. destruct (m g) as [t [[a g1]|]]; cbn [fst];
    [apply app_nil_r|reflexivity].
Qed.

Lemma bind_ret_outcome {A B} (m : M A) (f : A -> B) g r g' :
  outcome ((x <- m ;; ret (f x)) g) = Some (r, g') ->
  exists a, outcome (m g) = Some (a, g').
Proof.
  unfold bind, ret, outcome. destruct (m g) as [t [[a g1]|]]; cbn [snd];
    [|discriminate].
  intros H. exists a. congruence.
Qed.

Lemma test_bit_shape pin g :
  exists v, (v = 0 \/ v = 1) /\
    (sreg_test_bit pin g = ([], None) \/ sreg_test_bit pin g = ([], Some (v, g))).
Proof.
  unfold sreg_test_bit, read, bind, get, ret, lift.
  destruct (int_shl 1 pin) as [m|].
  - exists (truth (Z.land (shcp_reg_ g) m)). split; [|right; reflexivity].
    unfold truth, lnot_c. destruct (Z.land (shcp_reg_ g) m =? 0); cbn; lia.
  - exists 0. split; [lia|left; reflexivity].
Qed.

Lemma write_bit_shape pin v g :
  sreg_write_bit pin v g = ([], None) \/
  (0 <= pin < int_bits /\
   sreg_write_bit pin v g = ([], Some (tt, set_reg g (written (shcp_reg_ g) pin v)))).
Proof.
  assert (Hdec : 0 <= pin < int_bits \/ ~ 0 <= pin < int_bits) by lia.
  destruct Hdec as [Hin|Hout].
  - right. split; [exact Hin|apply write_bit_run; exact Hin].
  - left. apply write_bit_undefined; exact Hout.
Qed.

Lemma invert_bit_shape pin g :
  sreg_invert_bit pin g = ([], None) \/
  exists x, sreg_invert_bit pin g = ([], Some (tt, set_reg g x)) /\
            (in_int (shcp_reg_ g) -> in_int x).
Proof.
  unfold sreg_invert_bit, bind.
  destruct (test_bit_shape pin g) as (b & _ & [Hb|Hb]); rewrite Hb;
    [left; reflexivity|].
  destruct (write_bit_shape pin (lnot_c b) g) as [Hw|(Hin & Hw)]; rewrite Hw;
    [left; reflexivity|].
  right. eexists. split; [reflexivity|].
  intros Hreg. apply written_in_int; assumption.
Qed.

Lemma shift_cycle_shape i g :
  exists t, Forall (on_wiring (wiring_of g)) t /\
    (shift_cycle i g = (t, None) \/ shift_cycle i g = (t, Some (tt, g))).
Proof.
  unfold shift_cycle, read, bind, get, ret, digitalWrite, emit.
  destruct (test_bit_shape i g) as (v & Hv & [Hb|Hb]); rewrite Hb; cbn [app].
  - exists [DigitalWrite (shcp_ g) 0]. split; [|left; reflexivity].
    repeat (apply Forall_cons; [cbn; tauto|]); apply Forall_nil.
  - exists [DigitalWrite (shcp_ g) 0; DigitalWrite (ds_ g) v;
            DigitalWrite (shcp_ g) 1; DigitalWrite (ds_ g) 0].
    split; [|right; reflexivity].
    repeat (apply Forall_cons; [cbn; tauto|]); apply Forall_nil.
Qed.

Lemma shift_loop_shape n g :
  exists t, Forall (on_wiring (wiring_of g)) t /\
    (shift_loop n g = (t, None) \/ shift_loop n g = (t, Some (tt, g))).
Proof.
  induction n as [|n (t2 & Ht2 & IH)].
  - exists []. split; [constructor|right; reflexivity].
  - cbn [shift_loop]. unfold bind.
    destruct (shift_cycle_shape (Z.of_nat n) g) as (t1 & Ht1 & [Hc|Hc]); rewrite Hc.
    + exists t1. split; [exact Ht1|left; reflexivity].
    + exists (t1 ++ t2). split; [apply Forall_app; split; assumption|].
      destruct IH as [Hl|Hl]; rewrite Hl; [left|right]; reflexivity.
Qed.

(** [sreg_latch_high] only writes to the configured pins, and when it
    returns the globals are as before, also where the loop runs short. *)
Lemma latch_high_shape g :
  exists t, Forall (on_wiring (wiring_of g)) t /\
    (sreg_latch_high g = (t, None) \/ sreg_latch_high g = (t, Some (tt, g))).
Proof.
  unfold sreg_latch_high, read, bind, get, ret, lift, digitalWrite, emit.
  destruct (int_shl 4 (sreg_count_ g)) as [width|];
    [|exists []; split; [constructor|left; reflexivity]].
  destruct (int_sub width 1) as [start|];
    [|exists []; split; [constructor|left; reflexivity]].
  unfold shift_from.
  destruct (shift_loop_shape (Z.to_nat (start + 1)) g) as (t & Ht & [Hl|Hl]);
    rewrite Hl; cbn [app].
  - exists t. split; [exact Ht|left; reflexivity].
  - exists (t ++ [DigitalWrite (stcp_ g) 1]). split; [|right; reflexivity].
    apply Forall_app. split; [exact Ht|].
    repeat (apply Forall_cons; [cbn; tauto|]); apply Forall_nil.
Qed.

Lemma latch_low_on_wiring g : Forall (on_wiring (wiring_of g)) (latch_low_writes g).
Proof. unfold latch_low_writes. repeat (apply Forall_cons; [cbn; tauto|]); apply Forall_nil. Qed.

Lemma init_result g ds shcp stcp v n g' :
  outcome (sreg_init ds shcp stcp v n g) = Some (tt, g') ->
  g' = mkGlobals ds shcp stcp n v.
Proof.
  intros H. rewrite init_unfold in H. unfold outcome at 1 in H. cbn [snd] in H.
  destruct (latch_high_shape (mkGlobals ds shcp stcp n v)) as (t & _ & [Hl|Hl]);
    rewrite Hl in H; cbn in H; congruence.
Qed.

(** X11: [sreg_init] overwrites all five globals before it uses any of
    them: its writes and its outcome do not depend on the state it is
    called in, and when it returns the globals are its arguments. *)
Theorem init_forgets_prior_state g1 g2 ds shcp stcp v n :
  sreg_init ds shcp stcp v n g1 = sreg_init ds shcp stcp v n g2 /\
  forall g', outcome (sreg_init ds shcp stcp v n g1) = Some (tt, g') ->
             g' = mkGlobals ds shcp stcp n v.
Proof.
  split; [rewrite !init_unfold; reflexivity|].
  intros g' H. apply (init_result g1). exact H.
Qed.

(** X12: only [sreg_init] changes the pins and the chain length, and the
    two queries and the two latch functions change no global at all. *)
Theorem calls_leave_the_rest c g r g' :
  outcome (exec c g) = Some (r, g') ->
  (configures c = false -> wiring_of g' = wiring_of g) /\
  (writes_register c = false -> g' = g).
Proof.
  intros H.
  destruct c; cbn [configures writes_register]; cbn [exec] in H;
    (split; intros Hc; try discriminate Hc);
    apply bind_ret_outcome in H; destruct H as (a & H).
  - destruct (test_bit_shape pin g) as (v & _ & [Hb|Hb]); rewrite Hb in H;
      cbn in H; congruence.
  - destruct (test_bit_shape pin g) as (v & _ & [Hb|Hb]); rewrite Hb in H;
      cbn in H; congruence.
  - cbn in H. congruence.
  - cbn in H. congruence.
  - destruct (write_bit_shape pin bit_value g) as [Hw|(_ & Hw)]; rewrite Hw in H;
      cbn in H; [discriminate|].
    injection H as _ <-. reflexivity.
  - destruct (invert_bit_shape pin g) as [Hw|(x & Hw & _)]; rewrite Hw in H;
      cbn in H; [discriminate|].
    injection H as _ <-. reflexivity.
  - rewrite write_bits_unfold in H. unfold outcome at 1 in H. cbn [snd] in H.
    destruct (latch_high_shape (set_reg g bits)) as (t & _ & [Hl|Hl]);
      rewrite Hl in H; cbn in H; [discriminate|].
    injection H as _ <-. reflexivity.
  - cbn in H. congruence.
  - cbn in H. congruence.
  - destruct (latch_high_shape g) as (t & _ & [Hl|Hl]); rewrite Hl in H;
      cbn in H; congruence.
  - destruct (latch_high_shape g) as (t & _ & [Hl|Hl]); rewrite Hl in H;
      cbn in H; congruence.
Qed.

(** X13: whatever the arguments, a call writes to no pin but the three
    configured ones (for [sreg_init], the three it is given), sets no mode
    but on these, and drives no level other than 0 and 1; this holds as
    well for the writes issued before an undefined operation. *)
Theorem calls_stay_on_the_wiring c g :
  Forall (on_wiring (wiring_after c g)) (calls (exec c g)).
Proof.
  destruct c; cbn [exec wiring_after]; rewrite bind_ret_calls.
  - rewrite init_unfold. unfold calls at 1. cbn [fst].
    destruct (latch_high_shape (mkGlobals ds shcp stcp sreg_count init_value))
      as (t & Ht & Hl).
    assert (Hcalls : calls (sreg_latch_high (mkGlobals ds shcp stcp sreg_count init_value)) = t)
      by (destruct Hl as [Hl|Hl]; rewrite Hl; reflexivity).
    rewrite Hcalls. apply Forall_app. split; [repeat (apply Forall_cons; [cbn; tauto|]); apply Forall_nil|].
    apply Forall_app. split; [|exact Ht].
    apply (latch_low_on_wiring (mkGlobals ds shcp stcp sreg_count init_value)).
  - rewrite test_bit_calls. constructor.
  - constructor.
  - rewrite write_bit_calls. constructor.
  - rewrite invert_bit_calls. constructor.
  - rewrite write_bits_unfold. unfold calls at 1. cbn [fst].
    destruct (latch_high_shape (set_reg g bits)) as (t & Ht & Hl).
    assert (Hcalls : calls (sreg_latch_high (set_reg g bits)) = t)
      by (destruct Hl as [Hl|Hl]; rewrite Hl; reflexivity).
    rewrite Hcalls. apply Forall_app. split; [|exact Ht].
    apply (latch_low_on_wiring (set_reg g bits)).
  - apply latch_low_on_wiring.
  - destruct (latch_high_shape g) as (t & Ht & Hl).
    destruct Hl as [Hl|Hl]; rewrite Hl; exact Ht.
Qed.

(** X14: the register and the chain length stay values of type [int]
    across every call that returns, when the [int] arguments of the call
    are: the bit operations of [sreg_write_bit] cannot carry the register
    out of range, not even at the sign bit. *)
Theorem calls_keep_int_range c g r g' :
  in_int (shcp_reg_ g) -> in_int (sreg_count_ g) -> typed_call c ->
  outcome (exec c g) = Some (r, g') ->
  in_int (shcp_reg_ g') /\ in_int (sreg_count_ g').
Proof.
  intros Hreg Hcount Htyped H.
  destruct c; cbn [typed_call] in Htyped; cbn [exec] in H;
    apply bind_ret_outcome in H; destruct H as (a & H).
  - destruct a. apply init_result in H. subst g'. exact Htyped.
  - destruct (test_bit_shape pin g) as (v & _ & [Hb|Hb]); rewrite Hb in H;
      cbn in H; [discriminate|].
    injection H as _ <-. split; assumption.
  - cbn in H. injection H as _ <-. split; assumption.
  - destruct (write_bit_shape pin bit_value g) as [Hw|(Hin & Hw)]; rewrite Hw in H;
      cbn in H; [discriminate|].
    injection H as _ <-. split; [apply written_in_int; assumption|exact Hcount].
  - destruct (invert_bit_shape pin g) as [Hw|(x & Hw & Hx)]; rewrite Hw in H;
      cbn in H; [discriminate|].
    injection H as _ <-. split; [apply Hx; exact Hreg|exact Hcount].
  - rewrite write_bits_unfold in H. unfold outcome at 1 in H. cbn [snd] in H.
    destruct (latch_high_shape (set_reg g bits)) as (t & _ & [Hl|Hl]);
      rewrite Hl in H; cbn in H; [discriminate|].
    injection H as _ <-. split; assumption.
  - cbn in H. injection H as _ <-. split; assumption.
  - destruct (latch_high_shape g) as (t & _ & [Hl|Hl]); rewrite Hl in H;
      cbn in H; [discriminate|].
    injection H as _ <-. split; assumption.
Qed.

Lemma countdown_range n i : In i (countdown n) -> 0 <= i < Z.of_nat n.
Proof.
  induction n as [|n IH]; cbn [countdown In]; [contradiction|].
  intros [<-|Hin]; [lia|]. specialize (IH Hin). lia.
Qed.

Lemma flat_map_agree {A B} (f h : A -> list B) l :
  (forall a, In a l -> f a = h a) -> flat_map f l = flat_map h l.
Proof.
  induction l as [|a l IH]; intros Hfh; [reflexivity|].
  cbn [flat_map]. rewrite (Hfh a) by (left; reflexivity).
  rewrite IH; [reflexivity|]. intros b Hb. apply Hfh. right. exact Hb.
Qed.

(** X15: [sreg_latch_high] sends the bits of index below [4 << n] and no
    others: two register values that agree on these bits give the same
    writes, so with one chip on a 16-bit [int] the upper eight bits of the
    register never reach the pins. *)
Theorem latch_high_sends_low_bits g reg1 reg2 :
  in_int reg1 -> in_int reg2 -> chain_ok (sreg_count_ g) ->
  (forall i, 0 <= i < Z.shiftl 4 (sreg_count_ g) ->
             Z.testbit reg1 i = Z.testbit reg2 i) ->
  calls (sreg_latch_high (set_reg g reg1)) = calls (sreg_latch_high (set_reg g reg2)).
Proof.
  intros H1 H2 Hok Hsame. destruct (chain_ok_width _ Hok) as (Hn & Hw & Heq).
  rewrite !latch_high_run by assumption.
  unfold calls, latch_high_writes, shift_writes. cbn [fst set_reg sreg_count_ stcp_].
  f_equal. apply flat_map_agree. intros i Hi. apply countdown_range in Hi.
  unfold cycle_writes, bit_of. cbn [shcp_ ds_ shcp_reg_].
  rewrite Hsame by lia. reflexivity.
Qed.

(** X16: after [sreg_write_bits(x)], and after [sreg_init] with initial
    value [x], [sreg_test_bit(i)] returns bit [i] of [x]. *)
Theorem test_bit_after_push g x i ds shcp stcp n :
  in_int x -> 0 <= i < int_bits ->
  (chain_ok (sreg_count_ g) ->
   outcome ((sreg_write_bits x ;; sreg_test_bit i) g)
     = Some (Z.b2z (Z.testbit x i), set_reg g x)) /\
  (chain_ok n ->
   outcome ((sreg_init ds shcp stcp x n ;; sreg_test_bit i) g)
     = Some (Z.b2z (Z.testbit x i), mkGlobals ds shcp stcp n x)).
Proof.
  intros Hx Hi.
  assert (Hbit : bit_of x i = Z.b2z (Z.testbit x i))
    by (unfold bit_of; destruct (Z.testbit x i); reflexivity).
  split; intros Hok; unfold bind.
  - rewrite write_bits_run by assumption. rewrite test_bit_run by assumption.
    cbn [outcome snd set_reg shcp_reg_]. rewrite Hbit. reflexivity.
  - rewrite init_run by assumption. rewrite test_bit_run by assumption.
    cbn [outcome snd shcp_reg_]. rewrite Hbit. reflexivity.
Qed.

End Driver.

(** ** Concrete runs *)

(** Side conditions on closed numbers. *)
Ltac closed_facts :=
  unfold defined_call, wiring_after, wiring_of;
  unfold in_int, int_min, int_max, chain_ok, separate_pins;
  cbn; lia.

(** Two chips on a 16-bit [int], writing the sign bit. *)
Lemma write_bit_then_test_bit_witness :
  exists g',
    sreg_write_bit 16 15 7 (mkGlobals 2 3 4 2 5) = ([], Some (tt, g')) /\
    sreg_test_bit 16 15 g' = ([], Some (if 7 =? 0 then 0 else 1, g')) /\
    forall j, 0 <= j < 8 * 2 -> j <> 15 ->
      exists b, sreg_test_bit 16 j (mkGlobals 2 3 4 2 5) = ([], Some (b, mkGlobals 2 3 4 2 5)) /\
                sreg_test_bit 16 j g' = ([], Some (b, g')).
Proof.
  apply (write_bit_then_test_bit 16 ltac:(lia) (mkGlobals 2 3 4 2 5) 15 7);
    closed_facts.
Defined.

Lemma invert_bit_involutive_witness :
  (sreg_invert_bit 16 15 ;; sreg_invert_bit 16 15)%sreg (mkGlobals 2 3 4 2 5)
    = ([], Some (tt, mkGlobals 2 3 4 2 5)) /\
  exists b g1,
    sreg_test_bit 16 15 (mkGlobals 2 3 4 2 5) = ([], Some (b, mkGlobals 2 3 4 2 5)) /\
    sreg_invert_bit 16 15 (mkGlobals 2 3 4 2 5) = ([], Some (tt, g1)) /\
    sreg_test_bit 16 15 g1 = ([], Some (lnot_c b, g1)) /\
    (sreg_invert_bit 16 15 ;; sreg_invert_bit 16 15 ;; sreg_test_bit 16 15)%sreg
      (mkGlobals 2 3 4 2 5) = ([], Some (b, mkGlobals 2 3 4 2 5)).
Proof.
  apply (invert_bit_involutive 16 ltac:(lia) (mkGlobals 2 3 4 2 5) 15);
    closed_facts.
Defined.

(** Three chips on a 32-bit [int]: 32 cycles, then the latch. *)
Lemma latch_high_sequence_witness :
  sreg_latch_high 32 (mkGlobals 2 3 4 3 (-5)) =
    (flat_map (cycle_writes (mkGlobals 2 3 4 3 (-5))) (countdown (Z.to_nat (Z.shiftl 4 3)))
       ++ [ DigitalWrite 4 1 ],
     Some (tt, mkGlobals 2 3 4 3 (-5))) /\
  Z.of_nat (length (calls (sreg_latch_high 32 (mkGlobals 2 3 4 3 (-5))))) = 4 * Z.shiftl 4 3 + 1 /\
  (4 <> 2 -> 4 <> 3 ->
   count_high 4 (calls (sreg_latch_high 32 (mkGlobals 2 3 4 3 (-5)))) = 1%nat /\
   count_low 4 (calls (sreg_latch_high 32 (mkGlobals 2 3 4 3 (-5)))) = 0%nat).
Proof.
  apply (latch_high_sequence 32 ltac:(lia) (mkGlobals 2 3 4 3 (-5))); closed_facts.
Defined.

Lemma write_bits_then_test_all_bits_witness :
  exists t g',
    sreg_write_bits 16 255 (mkGlobals 2 3 4 1 0) = (t, Some (tt, g')) /\
    sreg_test_all_bits g' = ([], Some (255, g')) /\
    outcome ((sreg_write_bits 16 255 ;; sreg_test_all_bits)%sreg (mkGlobals 2 3 4 1 0))
      = Some (255, g').
Proof.
  apply (write_bits_then_test_all_bits 16 ltac:(lia) (mkGlobals 2 3 4 1 0) 255);
    closed_facts.
Defined.

Lemma latches_keep_register_witness :
  outcome (sreg_latch_low (mkGlobals 2 3 4 2 (-2))) = Some (tt, mkGlobals 2 3 4 2 (-2)) /\
  outcome (sreg_latch_high 16 (mkGlobals 2 3 4 2 (-2))) = Some (tt, mkGlobals 2 3 4 2 (-2)) /\
  outcome ((sreg_latch_low ;; sreg_test_all_bits)%sreg (mkGlobals 2 3 4 2 (-2)))
    = outcome (sreg_test_all_bits (mkGlobals 2 3 4 2 (-2))) /\
  outcome ((sreg_latch_high 16 ;; sreg_test_all_bits)%sreg (mkGlobals 2 3 4 2 (-2)))
    = outcome (sreg_test_all_bits (mkGlobals 2 3 4 2 (-2))).
Proof.
  apply (latches_keep_register 16 ltac:(lia) (mkGlobals 2 3 4 2 (-2))); closed_facts.
Defined.

Lemma top_bit_shifted_out_first_witness :
  first_data (mkGlobals 2 3 4 1 128) (calls (sreg_latch_high 16 (mkGlobals 2 3 4 1 128)))
    = Some (bit_of 128 (Z.shiftl 4 1 - 1)) /\
  exists t, calls (sreg_latch_high 16 (mkGlobals 2 3 4 1 128)) =
            t ++ cycle_writes (mkGlobals 2 3 4 1 128) 0 ++ [ DigitalWrite 4 1 ].
Proof.
  apply (top_bit_shifted_out_first 16 ltac:(lia) (mkGlobals 2 3 4 1 128)); closed_facts.
Defined.

Lemma init_configures_and_pushes_witness :
  sreg_init 16 2 3 4 3 1 startup =
    ([ PinMode 2 OUTPUT; PinMode 3 OUTPUT; PinMode 4 OUTPUT ]
       ++ latch_low_writes (mkGlobals 2 3 4 1 3)
       ++ latch_high_writes (mkGlobals 2 3 4 1 3),
     Some (tt, mkGlobals 2 3 4 1 3)) /\
  calls (sreg_init 16 2 3 4 3 1 startup) =
    [ PinMode 2 OUTPUT; PinMode 3 OUTPUT; PinMode 4 OUTPUT ]
      ++ calls (sreg_write_bits 16 3 (mkGlobals 2 3 4 1 (shcp_reg_ startup))) /\
  (forall g0, exists t g1,
     sreg_init 16 2 3 4 3 1 g0 = (t, Some (tt, g1)) /\
     sreg_test_bit 16 0 g1 = ([], Some (1, g1)) /\
     sreg_test_bit 16 1 g1 = ([], Some (1, g1)) /\
     sreg_test_bit 16 2 g1 = ([], Some (0, g1))).
Proof.
  apply (init_configures_and_pushes 16 ltac:(lia) startup 2 3 4 3 1); closed_facts.
Defined.

(** A push of [0xFF] from a chain whose outputs showed 0. *)
Lemma pushes_keep_mirror_synced_witness :
  exists r g',
    outcome (exec 16 (WriteBits 255) (mkGlobals 2 3 4 1 0)) = Some (r, g') /\
    wiring_of g' = mkWiring 2 3 4 1 /\
    synced g' (chain_run (mkWiring 2 3 4 1) (mkChain false true true 0 0)
                 (calls (exec 16 (WriteBits 255) (mkGlobals 2 3 4 1 0)))).
Proof.
  apply (pushes_keep_mirror_synced 16 ltac:(lia) (WriteBits 255) (mkGlobals 2 3 4 1 0)
           (mkChain false true true 0 0)).
  - closed_facts.
  - closed_facts.
  - reflexivity.
  - closed_facts.
  - left. reflexivity.
Defined.

(** [sreg_write_bit(5, 1)] sets bit 5 and leaves the other bits alone. *)
Example write_bit_five :
  outcome ((sreg_write_bit 16 5 1 ;; v <- sreg_test_bit 16 5 ;;
            all <- sreg_test_all_bits ;; ret (v, all))%sreg (mkGlobals 2 3 4 1 3))
  = Some ((1, 35), mkGlobals 2 3 4 1 35).
Proof. vm_compute. reflexivity. Qed.

(** [sreg_write_bits(0)] then [sreg_write_bits(0xFF)]: two full pushes on
    the pins, and the register reads 0xFF. *)
Example two_pushes :
  (sreg_write_bits 16 0 ;; sreg_write_bits 16 255 ;; sreg_test_all_bits)%sreg
    (mkGlobals 2 3 4 1 7)
  = ((latch_low_writes (mkGlobals 2 3 4 1 0) ++ latch_high_writes (mkGlobals 2 3 4 1 0))
       ++ latch_low_writes (mkGlobals 2 3 4 1 255) ++ latch_high_writes (mkGlobals 2 3 4 1 255),
     Some (255, mkGlobals 2 3 4 1 255)).
Proof. vm_compute. reflexivity. Qed.

(** ** Where the stated properties stop *)

(** C1 as stated fails for four chips on a 32-bit [int], a chain whose 32
    output bits do fit the register: the loop starts at index 63, and
    [1 << 63] is undefined.  None of the 257 writes of the stated sequence
    but the first is reached. *)
Lemma latch_high_four_chips_undefined :
  in_int 32 1 /\ in_int 32 4 /\ 8 * 4 <= 32 /\
  sreg_latch_high 32 (mkGlobals 2 3 4 4 1) = ([ DigitalWrite 3 0 ], None) /\
  sreg_latch_high 32 (mkGlobals 2 3 4 4 1) <>
    (flat_map (cycle_writes (mkGlobals 2 3 4 4 1)) (countdown (Z.to_nat (Z.shiftl 4 4)))
       ++ [ DigitalWrite 4 1 ],
     Some (tt, mkGlobals 2 3 4 4 1)).
Proof.
  split; [closed_facts|]. split; [closed_facts|]. split; [lia|].
  split; [vm_compute; reflexivity|].
  vm_compute. discriminate.
Qed.

(** C4 as stated fails: with one chip and the register at 1, bit 0 is 1
    but the first value on the data pin is 0, the value of bit 7; bit 0 goes
    out in the last cycle.  The first data write of a whole push, the one of
    [sreg_latch_low], is 0 as well. *)
Lemma bit_zero_not_shifted_first :
  bit_of (shcp_reg_ (mkGlobals 2 3 4 1 1)) 0 = 1 /\
  first_data (mkGlobals 2 3 4 1 1) (calls (sreg_latch_high 16 (mkGlobals 2 3 4 1 1)))
    = Some 0 /\
  first_data (mkGlobals 2 3 4 1 1) (calls (sreg_latch_high 16 (mkGlobals 2 3 4 1 1)))
    <> Some (bit_of (shcp_reg_ (mkGlobals 2 3 4 1 1)) 0) /\
  writes_to 2 (calls (sreg_latch_high 16 (mkGlobals 2 3 4 1 1)))
    = [0; 0; 0; 0; 0; 0; 0; 0; 0; 0; 0; 0; 0; 0; 1; 0] /\
  first_data (mkGlobals 2 3 4 1 1) (calls (sreg_write_bits 16 1 (mkGlobals 2 3 4 1 0)))
    = Some 0.
Proof.
  split; [reflexivity|]. split; [vm_compute; reflexivity|].
  split; [vm_compute; discriminate|]. split; vm_compute; reflexivity.
Qed.

(** C5 as stated fails: after [sreg_init(2, 3, 4, 0, 1)] and
    [sreg_write_bit(0, 1)] the register holds 1, while all the pins saw is
    the configuration and one push of the value 0, and the outputs of the
    chain show 0. *)
Lemma write_bit_leaves_outputs_behind :
  exists g,
    outcome (run 16 [ Initialize 2 3 4 0 1; WriteBit 0 1 ] startup) = Some (tt, g) /\
    calls (run 16 [ Initialize 2 3 4 0 1; WriteBit 0 1 ] startup)
      = [ PinMode 2 OUTPUT; PinMode 3 OUTPUT; PinMode 4 OUTPUT ]
          ++ latch_low_writes (mkGlobals 2 3 4 1 0)
          ++ latch_high_writes (mkGlobals 2 3 4 1 0) /\
    shcp_reg_ g = 1 /\
    outputs (chain_run (mkWiring 2 3 4 1) (mkChain false false false 0 0)
               (calls (run 16 [ Initialize 2 3 4 0 1; WriteBit 0 1 ] startup))) = 0 /\
    ~ synced g (chain_run (wiring_of g) (mkChain false false false 0 0)
                  (calls (run 16 [ Initialize 2 3 4 0 1; WriteBit 0 1 ] startup))).
Proof.
  exists (mkGlobals 2 3 4 1 1).
  split; [vm_compute; reflexivity|]. split; [vm_compute; reflexivity|].
  split; [reflexivity|]. split; [vm_compute; reflexivity|].
  intros Hs. specialize (Hs 0 ltac:(cbn; lia)). vm_compute in Hs. discriminate.
Qed.

(** ** Concrete runs of the further properties *)

(** Case analysis on a bit index below 16. *)
Ltac each_index i H :=
  assert (i = 0 \/ i = 1 \/ i = 2 \/ i = 3 \/ i = 4 \/ i = 5 \/ i = 6 \/ i = 7 \/
          i = 8 \/ i = 9 \/ i = 10 \/ i = 11 \/ i = 12 \/ i = 13 \/ i = 14 \/ i = 15)
    as Hcases by (cbn in H; lia);
  repeat (destruct Hcases as [Hcases|Hcases]; [subst i|]); [..|subst i].

Lemma test_bit_is_bit_of_all_bits_witness :
  exists v all,
    sreg_test_bit 16 15 (mkGlobals 2 3 4 2 (-3)) = ([], Some (v, mkGlobals 2 3 4 2 (-3))) /\
    sreg_test_all_bits (mkGlobals 2 3 4 2 (-3)) = ([], Some (all, mkGlobals 2 3 4 2 (-3))) /\
    v = Z.b2z (Z.testbit all 15) /\
    v = (all / 2 ^ 15) mod 2.
Proof.
  apply (test_bit_is_bit_of_all_bits 16 ltac:(lia) (mkGlobals 2 3 4 2 (-3)) 15);
    closed_facts.
Defined.

Lemma bit_index_bounds_witness :
  (outcome (sreg_test_bit 16 16 startup) <> None <-> 0 <= 16 < 16) /\
  (outcome (sreg_write_bit 16 16 1 startup) <> None <-> 0 <= 16 < 16) /\
  (outcome (sreg_invert_bit 16 16 startup) <> None <-> 0 <= 16 < 16).
Proof.
  apply (bit_index_bounds 16 ltac:(lia) startup 16 1).
Defined.

Lemma test_bits_determine_register_witness :
  exists all,
    sreg_test_all_bits (mkGlobals 2 3 4 1 (-5)) = ([], Some (all, mkGlobals 2 3 4 1 (-5))) /\
    sreg_test_all_bits (mkGlobals 7 8 9 2 (-5)) = ([], Some (all, mkGlobals 7 8 9 2 (-5))).
Proof.
  apply (test_bits_determine_register 16 ltac:(lia)
           (mkGlobals 2 3 4 1 (-5)) (mkGlobals 7 8 9 2 (-5))).
  - closed_facts.
  - closed_facts.
  - intros pin Hpin. each_index pin Hpin; eexists; split; reflexivity.
Defined.

Lemma write_bit_adjusts_value_witness :
  exists g',
    sreg_write_bit 16 15 1 (mkGlobals 2 3 4 2 5) = ([], Some (tt, g')) /\
    wiring_of g' = wiring_of (mkGlobals 2 3 4 2 5) /\
    shcp_reg_ g' = 5 + ((if 1 =? 0 then 0 else 1) - Z.b2z (Z.testbit 5 15)) * bit_weight 16 15.
Proof.
  apply (write_bit_adjusts_value 16 ltac:(lia) (mkGlobals 2 3 4 2 5) 15 1);
    closed_facts.
Defined.

Lemma write_bit_last_wins_witness :
  (sreg_write_bit 16 3 1 ;; sreg_write_bit 16 3 0)%sreg (mkGlobals 2 3 4 1 0)
  = sreg_write_bit 16 3 0 (mkGlobals 2 3 4 1 0).
Proof.
  apply (write_bit_last_wins 16 ltac:(lia) (mkGlobals 2 3 4 1 0) 3 1 0).
Defined.

Lemma write_bit_commutes_witness :
  (sreg_write_bit 16 0 1 ;; sreg_write_bit 16 15 1)%sreg (mkGlobals 2 3 4 2 0)
  = (sreg_write_bit 16 15 1 ;; sreg_write_bit 16 0 1)%sreg (mkGlobals 2 3 4 2 0).
Proof.
  apply (write_bit_commutes 16 ltac:(lia) (mkGlobals 2 3 4 2 0) 0 15 1 1). lia.
Defined.

Lemma invert_bit_is_xor_witness :
  exists g',
    sreg_invert_bit 16 15 (mkGlobals 2 3 4 2 5) = ([], Some (tt, g')) /\
    wiring_of g' = wiring_of (mkGlobals 2 3 4 2 5) /\
    shcp_reg_ g' = Z.lxor 5 (bit_weight 16 15) /\
    forall j, 0 <= j < 16 -> j <> 15 ->
      exists b, sreg_test_bit 16 j (mkGlobals 2 3 4 2 5) = ([], Some (b, mkGlobals 2 3 4 2 5)) /\
                sreg_test_bit 16 j g' = ([], Some (b, g')).
Proof.
  apply (invert_bit_is_xor 16 ltac:(lia) (mkGlobals 2 3 4 2 5) 15); closed_facts.
Defined.


Lemma latch_high_per_pin_witness :
  writes_to 3 (calls (sreg_latch_high 16 (mkGlobals 2 3 4 1 5))) =
    flat_map (fun _ => [0; 1]) (countdown (Z.to_nat (Z.shiftl 4 1))) /\
  writes_to 2 (calls (sreg_latch_high 16 (mkGlobals 2 3 4 1 5))) =
    flat_map (fun i => [bit_of 5 i; 0]) (countdown (Z.to_nat (Z.shiftl 4 1))) /\
  writes_to 4 (calls (sreg_latch_high 16 (mkGlobals 2 3 4 1 5))) = [1].
Proof.
  apply (latch_high_per_pin 16 ltac:(lia) (mkGlobals 2 3 4 1 5)); closed_facts.
Defined.

Lemma write_bit_then_latches_witness :
  exists x g',
    sreg_write_bit 16 5 1 (mkGlobals 2 3 4 1 3) = ([], Some (tt, g')) /\
    sreg_test_all_bits g' = ([], Some (x, g')) /\
    (sreg_write_bit 16 5 1 ;; sreg_latch_low ;; sreg_latch_high 16)%sreg (mkGlobals 2 3 4 1 3)
    = sreg_write_bits 16 x (mkGlobals 2 3 4 1 3).
Proof.
  apply (write_bit_then_latches 16 ltac:(lia) (mkGlobals 2 3 4 1 3) 5 1). lia.
Defined.

Lemma calls_leave_the_rest_witness :
  (configures LatchHigh = false ->
   wiring_of (mkGlobals 2 3 4 1 3) = wiring_of (mkGlobals 2 3 4 1 3)) /\
  (writes_register LatchHigh = false -> mkGlobals 2 3 4 1 3 = mkGlobals 2 3 4 1 3).
Proof.
  apply (calls_leave_the_rest 16 ltac:(lia) LatchHigh (mkGlobals 2 3 4 1 3) None
           (mkGlobals 2 3 4 1 3)).
  vm_compute. reflexivity.
Defined.

Lemma calls_keep_int_range_witness :
  in_int 16 (shcp_reg_ (mkGlobals 2 3 4 2 (-32763))) /\
  in_int 16 (sreg_count_ (mkGlobals 2 3 4 2 (-32763))).
Proof.
  apply (calls_keep_int_range 16 ltac:(lia) (WriteBit 15 1) (mkGlobals 2 3 4 2 5) None
           (mkGlobals 2 3 4 2 (-32763))).
  - closed_facts.
  - closed_facts.
  - exact I.
  - vm_compute. reflexivity.
Defined.

(** One chip on a 16-bit [int]: 5 and 5 + 256 are sent alike. *)
Lemma latch_high_sends_low_bits_witness :
  calls (sreg_latch_high 16 (set_reg (mkGlobals 2 3 4 1 0) 5)) =
  calls (sreg_latch_high 16 (set_reg (mkGlobals 2 3 4 1 0) 261)).
Proof.
  apply (latch_high_sends_low_bits 16 ltac:(lia) (mkGlobals 2 3 4 1 0) 5 261).
  - closed_facts.
  - closed_facts.
  - closed_facts.
  - intros i Hi. each_index i Hi; try reflexivity; cbn in Hi; lia.
Defined.

Lemma test_bit_after_push_witness :
  (chain_ok 16 1 ->
   outcome ((sreg_write_bits 16 3 ;; sreg_test_bit 16 1)%sreg (mkGlobals 2 3 4 1 0))
     = Some (Z.b2z (Z.testbit 3 1), set_reg (mkGlobals 2 3 4 1 0) 3)) /\
  (chain_ok 16 1 ->
   outcome ((sreg_init 16 2 3 4 3 1 ;; sreg_test_bit 16 1)%sreg (mkGlobals 2 3 4 1 0))
     = Some (Z.b2z (Z.testbit 3 1), mkGlobals 2 3 4 1 3)).
Proof.
  apply (test_bit_after_push 16 ltac:(lia) (mkGlobals 2 3 4 1 0) 3 1 2 3 4 1);
    closed_facts.
Defined.
